(** * NutriGen inference pipeline (app.py): a shallow embedding

    The script app.py loads a tokenizer and a model checkpoint once, and on the
    "generate" trigger parses the ingredient text, drives the model and cleans
    the decoded text for display.  This development embeds the pure parts
    (string handling, checkpoint resolution) as Rocq functions and the
    effectful parts (the loader and the trigger handler) in a small
    writer-and-exception monad over an explicit environment of external
    operations.

    Text.  The ingredient parsing is modelled on sequences of Unicode code
    points, with Python's own set of blank characters, so it covers every
    [str].  The display clean-up needs Python's case mapping; it is modelled
    on Stdlib's [string] and covers ASCII text (codes below 128), where
    Python's case mapping, [str.isspace] and the regular-expression class
    [\s] agree with the functions of [PyStr]; there codes 128..255 are
    treated as caseless, non-blank characters. *)

From Stdlib Require Import Bool Arith List Lia NArith ZArith QArith.
From Stdlib Require Import Ascii String.
Import ListNotations.

Local Close Scope Q_scope.
Local Open Scope list_scope.
Local Open Scope string_scope.
Local Open Scope nat_scope.

(** ** Characters and strings, as Python sees them *)

Module PyStr.

(** [str.isspace] / [\s] on ASCII: TAB..CR, FS..US and the blank. *)
Definition is_space (c : ascii) : bool :=
  let n := nat_of_ascii c in
  ((9 <=? n) && (n <=? 13)) || ((28 <=? n) && (n <=? 32)).

(** The character class [[a-z]]. *)
Definition is_lower (c : ascii) : bool :=
  let n := nat_of_ascii c in (97 <=? n) && (n <=? 122).

Definition is_upper (c : ascii) : bool :=
  let n := nat_of_ascii c in (65 <=? n) && (n <=? 90).

(** [str.upper] and [str.lower] on one character. *)
Definition upper (c : ascii) : ascii :=
  if is_lower c then ascii_of_nat (nat_of_ascii c - 32) else c.

Definition lower (c : ascii) : ascii :=
  if is_upper c then ascii_of_nat (nat_of_ascii c + 32) else c.

Fixpoint map_str (f : ascii -> ascii) (s : string) : string :=
  match s with
  | EmptyString => EmptyString
  | String c r => String (f c) (map_str f r)
  end.

Fixpoint forallb_str (p : ascii -> bool) (s : string) : bool :=
  match s with
  | EmptyString => true
  | String c r => p c && forallb_str p r
  end.

(** [s.capitalize()]: first character upper-cased, every other character
    lower-cased. *)
Definition capitalize (s : string) : string :=
  match s with
  | EmptyString => EmptyString
  | String c r => String (upper c) (map_str lower r)
  end.

(** [s.startswith(p)]. *)
Definition startswith (s p : string) : bool := String.prefix p s.

(** The slice [s[n:]]. *)
Fixpoint drop (n : nat) (s : string) : string :=
  match n, s with
  | O, _ => s
  | S _, EmptyString => EmptyString
  | S m, String _ r => drop m r
  end.

(** [s.lstrip()] with no argument: what the greedy [\s*] skips. *)
Fixpoint lstrip (s : string) : string :=
  match s with
  | EmptyString => EmptyString
  | String c r => if is_space c then lstrip r else s
  end.

(** The leading blanks of a string: what [lstrip] removes. *)
Fixpoint blanks (s : string) : string :=
  match s with
  | EmptyString => EmptyString
  | String c r => if is_space c then String c (blanks r) else EmptyString
  end.

Definition first_char (s : string) : option ascii :=
  match s with
  | EmptyString => None
  | String c _ => Some c
  end.

Fixpoint filter_str (p : ascii -> bool) (s : string) : string :=
  match s with
  | EmptyString => EmptyString
  | String c r => if p c then String c (filter_str p r) else filter_str p r
  end.

(** The text with its case and its blanks forgotten. *)
Definition letters (s : string) : string :=
  filter_str (fun c => negb (is_space c)) (map_str lower s).


(** No upper-case letter anywhere. *)
Definition lowered (s : string) : bool :=
  forallb_str (fun c => negb (is_upper c)) s.

End PyStr.

(** ** The display clean-up (app.py lines 191-192) *)

Module Postprocess.
Import PyStr.

(** The group [([.!?])]. *)
Definition is_terminal (c : ascii) : bool :=
  Ascii.eqb c "." || Ascii.eqb c "!" || Ascii.eqb c "?".

(** One attempt of the pattern [([.!?])\s*([a-z])] at the head of [s]:
    the two groups and the text after the match.  The greedy [\s*] never has
    to give a character back, since [[a-z]] matches no blank. *)
Definition match_here (s : string) : option (ascii * ascii * string) :=
  match s with
  | EmptyString => None
  | String p r =>
      if is_terminal p then
        match lstrip r with
        | EmptyString => None
        | String l rest => if is_lower l then Some (p, l, rest) else None
        end
      else None
  end.

(** The replacement [lambda p: p.group(1) + " " + p.group(2).upper()]. *)
Definition repl (g1 g2 : ascii) (k : string) : string :=
  String g1 (String " " (String (upper g2) k)).

(** [re.sub]: scan from the left; at a match emit the replacement and go on
    after the match, otherwise copy one character.  Every round consumes at
    least one character, so [length s] rounds are enough. *)
Fixpoint re_sub_from (fuel : nat) (s : string) : string :=
  match fuel with
  | O => s
  | S f =>
      match s with
      | EmptyString => EmptyString
      | String c r =>
          match match_here s with
          | Some (g1, g2, rest) => repl g1 g2 (re_sub_from f rest)
          | None => String c (re_sub_from f r)
          end
      end
  end.

Definition re_sub (s : string) : string := re_sub_from (String.length s) s.

(** [re.search] with the same pattern: is there a match anywhere? *)
Fixpoint re_search (s : string) : bool :=
  match s with
  | EmptyString => false
  | String _ r =>
      match match_here s with
      | Some _ => true
      | None => re_search r
      end
  end.

(** [recipe_text = recipe_text.capitalize()] then the [re.sub]. *)
Definition clean (text : string) : string := re_sub (capitalize text).

(** The clean-up in the words of the design document: only the first
    character is capitalised; a terminal mark, its blanks and a lower-case
    letter become the mark, one blank and the upper-case letter; every other
    character is copied.  One pass with the pending mark and its blanks. *)
Fixpoint spec_sentences (pending : option (ascii * string)) (s : string)
  : string :=
  match s with
  | EmptyString =>
      match pending with
      | None => EmptyString
      | Some (p, ws) => String p ws
      end
  | String c r =>
      match pending with
      | None =>
          if is_terminal c then spec_sentences (Some (c, EmptyString)) r
          else String c (spec_sentences None r)
      | Some (p, ws) =>
          if is_space c
          then spec_sentences (Some (p, ws ++ String c EmptyString)) r
          else if is_lower c
          then String p (String " " (String (upper c) (spec_sentences None r)))
          else if is_terminal c
          then String p (ws ++ spec_sentences (Some (c, EmptyString)) r)
          else String p (ws ++ String c (spec_sentences None r))
      end
  end.

Definition spec_capitalize_first (s : string) : string :=
  match s with
  | EmptyString => EmptyString
  | String c r => String (upper c) r
  end.

Definition spec_clean (text : string) : string :=
  spec_sentences None (spec_capitalize_first text).

(** What [capitalize] does beyond the first character. *)
Definition lower_tail (s : string) : string :=
  match s with
  | EmptyString => EmptyString
  | String c r => String c (map_str lower r)
  end.

End Postprocess.

(** ** Text as Unicode code points *)

Module UText.
Local Open Scope N_scope.

(** A Python [str] as the sequence of its Unicode code points. *)
Definition ustr : Type := list N.

(** A [string] read as the code points below U+0100, and back (the way
    back is only used on text that came from a [string]). *)
Definition code_points (s : string) : ustr :=
  map N_of_ascii (list_ascii_of_string s).

Definition to_string (u : ustr) : string :=
  string_of_list_ascii (map ascii_of_N u).

(** [str.isspace] on one character: the blanks [str.strip()] removes. *)
Definition is_space (c : N) : bool :=
  ((0x09 <=? c) && (c <=? 0x0D)) || ((0x1C <=? c) && (c <=? 0x20))
  || (c =? 0x85) || (c =? 0xA0) || (c =? 0x1680)
  || ((0x2000 <=? c) && (c <=? 0x200A))
  || (c =? 0x2028) || (c =? 0x2029) || (c =? 0x202F) || (c =? 0x205F)
  || (c =? 0x3000).

Definition comma : N := 0x2C.
Definition blank : N := 0x20.

(** [s.lstrip()], [s.rstrip()] and [s.strip()] with no argument. *)
Fixpoint lstrip (s : ustr) : ustr :=
  match s with
  | [] => []
  | c :: r => if is_space c then lstrip r else s
  end.

(** The leading blanks of a text: what [lstrip] removes. *)
Fixpoint blanks (s : ustr) : ustr :=
  match s with
  | [] => []
  | c :: r => if is_space c then c :: blanks r else []
  end.

Fixpoint rstrip (s : ustr) : ustr :=
  match s with
  | [] => []
  | c :: r =>
      match rstrip r with
      | [] => if is_space c then [] else [c]
      | r' => c :: r'
      end
  end.

Definition strip (s : ustr) : ustr := rstrip (lstrip s).

(** [s.split(sep)] for a one-character separator: never empty, one more
    piece than there are separators. *)
Fixpoint split (sep : N) (s : ustr) : list ustr :=
  match s with
  | [] => [[]]
  | c :: r =>
      if c =? sep then [] :: split sep r
      else match split sep r with
           | h :: t => (c :: h) :: t
           | [] => [[c]]
           end
  end.

(** [sep.join(pieces)]. *)
Fixpoint join (sep : ustr) (pieces : list ustr) : ustr :=
  match pieces with
  | [] => []
  | x :: xs =>
      match xs with
      | [] => x
      | _ => (x ++ sep ++ join sep xs)%list
      end
  end.

Fixpoint count_char (a : N) (s : ustr) : nat :=
  match s with
  | [] => 0%nat
  | c :: r => ((if (c =? a)%N then 1 else 0) + count_char a r)%nat
  end.

Fixpoint last_char (s : ustr) : option N :=
  match s with
  | [] => None
  | [c] => Some c
  | _ :: r => last_char r
  end.

Definition first_char (s : ustr) : option N := hd_error s.

End UText.

(** ** Ingredient parsing (app.py line 160) *)

Module Ingredients.
Import UText.

(** [[i.strip() for i in ingredients_input.split(',')]]. *)
Definition parse (ingredients_input : ustr) : list ustr :=
  map strip (split comma ingredients_input).

(** The same on a [string], as the trigger handler below uses it. *)
Definition ingredients_list (ingredients_input : string) : list string :=
  map to_string (parse (code_points ingredients_input)).

(** [t] is [p] without its leading and trailing blanks. *)
Definition stripped (p t : ustr) : Prop :=
  exists l r,
    p = (l ++ t ++ r)%list /\
    forallb is_space l = true /\
    forallb is_space r = true /\
    (forall c, first_char t = Some c -> is_space c = false) /\
    (forall c, last_char t = Some c -> is_space c = false).

End Ingredients.

(** ** Python values, dictionaries and exceptions *)

Module Py.
Import PyStr.

(** The values a checkpoint can hold.  A [float] is only carried around,
    never computed with; it is represented by the rational its literal
    denotes.  A tensor is an opaque handle.  A [dict] keeps insertion order;
    its keys are [str], as in every mapping the script reads. *)
#[local] Set Warnings "-register-all".
Inductive pyval : Type :=
| VNone
| VInt (z : Z)
| VFloat (q : Q)
| VStr (s : string)
| VTensor (handle : nat)
| VDict (d : list (string * pyval)).

Definition dict : Type := list (string * pyval).

(** An exception of class [Exception], the class both handlers of the
    script name: its class name and [str(e)].  What is not an [Exception]
    (KeyboardInterrupt, SystemExit, GeneratorExit) is not modelled. *)
Record exn : Type := Exn { exn_class : string; exn_str : string }.

Inductive result (A : Type) : Type :=
| Ok (a : A)
| Raise (e : exn).
Arguments Ok {A} a.
Arguments Raise {A} e.

Fixpoint dict_lookup (d : dict) (k : string) : option pyval :=
  match d with
  | [] => None
  | (k', v) :: r => if String.eqb k' k then Some v else dict_lookup r k
  end.

(** [d[k] = v]: an existing key keeps its place and takes the new value, a
    new key goes last. *)
Fixpoint dict_set (d : dict) (k : string) (v : pyval) : dict :=
  match d with
  | [] => [(k, v)]
  | (k', v') :: r =>
      if String.eqb k' k then (k', v) :: r else (k', v') :: dict_set r k v
  end.

Definition dict_keys (d : dict) : list string := map fst d.

(** The comprehension [{f(k): v for k, v in d.items()}]. *)
Definition dict_rekey (f : string -> string) (d : dict) : dict :=
  fold_left (fun acc kv => dict_set acc (f (fst kv)) (snd kv)) d [].

(** The value [d.get(k, default)] yields. *)
Definition get_or (d : dict) (k : string) (default : pyval) : pyval :=
  match dict_lookup d k with Some v => v | None => default end.

(** One entry of the comprehension. *)
Definition rekey_entry (f : string -> string) (kv : string * pyval)
  : string * pyval := (f (fst kv), snd kv).

(** [type(v).__name__]. *)
Definition type_name (v : pyval) : string :=
  match v with
  | VNone => "NoneType"
  | VInt _ => "int"
  | VFloat _ => "float"
  | VStr _ => "str"
  | VTensor _ => "Tensor"
  | VDict _ => "dict"
  end.

Definition AttributeError (what : string) : exn :=
  Exn "AttributeError" what.

(** The exception of [v.name] when [v] has no such attribute. *)
Definition no_attribute (v : pyval) (name : string) : exn :=
  AttributeError
    ("'" ++ type_name v ++ "' object has no attribute '" ++ name ++ "'").

Definition IndexError : exn := Exn "IndexError" "list index out of range".

(** [obj.get(k, default)]: only a dict has the method. *)
Definition py_get (obj : pyval) (k : string) (default : pyval)
  : result pyval :=
  match obj with
  | VDict d =>
      Ok (match dict_lookup d k with Some v => v | None => default end)
  | _ => Raise (no_attribute obj "get")
  end.

(** [list(obj.keys())[0]]. *)
Definition first_key (obj : pyval) : result string :=
  match obj with
  | VDict [] => Raise IndexError
  | VDict ((k, _) :: _) => Ok k
  | _ => Raise (no_attribute obj "keys")
  end.

End Py.

(** ** Effects: Streamlit output, calls into the core, exceptions *)

Module Eff.
Import Py.

(** What the script shows, and the calls it makes into the model side
    (recorded with their arguments).  Showing something never raises. *)
Inductive event : Type :=
| StWrite (msg : string)
| StError (msg : string)
| StWarning (msg : string)
| StInfo (msg : string)
| StSubheader (msg : string)
| StSpinner (msg : string)
| StMarkdown (html : string)
| StException (e : exn)
| CallFormat (ingredients : list string) (nutrition : dict)
| CallEncode (text : string) (max_length : Z)
| CallGenerate (input_rows : list (list Z)) (max_length : Z)
    (temperature : Q) (top_k : Z)
| CallDecode (ids : list Z) (skip_special_tokens : bool).

(** A computation: what it emitted, and how it ended. *)
Definition io (A : Type) : Type := list event * result A.

Definition ret {A} (a : A) : io A := ([], Ok a).

Definition bind {A B} (m : io A) (f : A -> io B) : io B :=
  match m with
  | (evs, Ok a) => let (evs', r) := f a in ((evs ++ evs')%list, r)
  | (evs, Raise e) => (evs, Raise e)
  end.

Definition emit (e : event) : io unit := ([e], Ok tt).

Definition lift {A} (r : result A) : io A := ([], r).

(** [try: body except Exception as e: handler(e)]; every exception of the
    model is an [Exception]. *)
Definition try_except {A} (body : io A) (handler : exn -> io A) : io A :=
  match body with
  | (evs, Ok a) => (evs, Ok a)
  | (evs, Raise e) => let (evs', r) := handler e in ((evs ++ evs')%list, r)
  end.

(** An [st.error] message. *)
Definition is_error (e : event) : bool :=
  match e with StError _ => true | _ => false end.

Definition trace {A} (m : io A) : list event := fst m.
Definition outcome {A} (m : io A) : result A := snd m.

End Eff.

Declare Scope io_scope.
Delimit Scope io_scope with io.
Notation "x <- m ;; k" := (Eff.bind m (fun x => k))
  (at level 61, m at next level, right associativity) : io_scope.
Notation "m ;;; k" := (Eff.bind m (fun _ => k))
  (at level 61, right associativity) : io_scope.

(** ** The loader (app.py lines 76-143) *)

Module Loader.
Import PyStr Py Eff.
Local Open Scope io_scope.

Inductive Device : Type := mps | cuda | cpu.

Definition device_str (d : Device) : string :=
  match d with mps => "mps" | cuda => "cuda" | cpu => "cpu" end.

(** Lines 80-85: the device choice. *)
Definition select_device (mps_available cuda_available : bool) : Device :=
  if mps_available then mps
  else if cuda_available then cuda
  else cpu.

(** The keyword arguments of [RecipeTransformer(...)], as read from the
    checkpoint. *)
Record ModelConfig : Type := mkConfig {
  vocab_size : pyval;
  d_model : pyval;
  n_heads : pyval;
  n_layers : pyval;
  d_ff : pyval;
  dropout : pyval
}.

(** The tokenizer object, through the interface the script uses. *)
Record Tokenizer : Type := mkTokenizer {
  tok_vocab_size : Z;
  tok_encode : string -> Z -> result (list Z);
  tok_decode : list Z -> bool -> result string
}.

(** The input tensor of line 175: one row of token ids, on a device. *)
Record Tensor : Type := mkTensor {
  t_rows : list (list Z);
  t_device : option Device
}.

(** The model object: [generate(input, tokenizer, max_length, temperature,
    top_k)]. *)
Record Model : Type := mkModel {
  m_generate : Tensor -> Tokenizer -> Z -> Q -> Z -> result (list Z)
}.

(** Everything outside app.py that the script calls.  [torch_tensor_to]
    is the whole of line 175, [torch.tensor(ids).unsqueeze(0).to(device)]. *)
Record Env : Type := mkEnv {
  mps_is_available : bool;
  cuda_is_available : bool;
  os_path_exists : string -> bool;
  RecipeTokenizer_load : string -> result Tokenizer;
  torch_load : string -> Device -> result pyval;
  RecipeTransformer : ModelConfig -> result Model;
  load_state_dict : Model -> dict -> result Model;
  model_to : Model -> Device -> result Model;
  model_eval : Model -> result Model;
  format_ingredients_for_input : list string -> dict -> result string;
  torch_tensor_to : list Z -> option Device -> result Tensor;
  py_str : pyval -> string
}.

Definition tokenizer_path : string := "models/recipe_tokenizer.pkl".
Definition model_path : string := "models/nutrigen_transformer_final.pt".

(** The fixed wrapper prefix and the slice [k[7:]]. *)
Definition wrapper_prefix : string := "module.".
Definition strip_key (k : string) : string := drop 7 k.

(** Lines 108-116: the model configuration read from the checkpoint. *)
Definition resolve_config (checkpoint : pyval) (tokenizer_vocab_size : Z)
  : result ModelConfig :=
  match py_get checkpoint "vocab_size" (VInt tokenizer_vocab_size) with
  | Raise e => Raise e
  | Ok vocab =>
  match py_get checkpoint "d_model" (VInt 256) with
  | Raise e => Raise e
  | Ok dm =>
  match py_get checkpoint "config" (VDict []) with
  | Raise e => Raise e
  | Ok config =>
  match py_get config "n_heads" (VInt 8) with
  | Raise e => Raise e
  | Ok heads =>
  match py_get config "n_layers" (VInt 4) with
  | Raise e => Raise e
  | Ok layers =>
  match py_get config "d_ff" (VInt 1024) with
  | Raise e => Raise e
  | Ok ff =>
  match py_get config "dropout" (VFloat (1 # 10)) with
  | Raise e => Raise e
  | Ok dr => Ok (mkConfig vocab dm heads layers ff dr)
  end end end end end end end.

(** Lines 129-133: the parameter mapping, with the wrapper prefix removed
    when the first key carries it. *)
Definition resolve_params (checkpoint : pyval) : result dict :=
  match py_get checkpoint "model_state_dict" checkpoint with
  | Raise e => Raise e
  | Ok state_dict =>
      match first_key state_dict with
      | Raise e => Raise e
      | Ok k0 =>
          match state_dict with
          | VDict d =>
              if startswith k0 wrapper_prefix
              then Ok (dict_rekey strip_key d)
              else Ok d
          | _ => Raise (no_attribute state_dict "keys")
          end
      end
  end.

Definition LoadedResources : Type :=
  (option Model * option Tokenizer * option Device)%type.

Definition all_absent : LoadedResources := (None, None, None).

(** The body of the [try] block. *)
Definition load_body (env : Env) : io LoadedResources :=
  let device := select_device (mps_is_available env) (cuda_is_available env) in
  emit (StWrite ("Using device: " ++ device_str device)) ;;;
  if negb (os_path_exists env tokenizer_path) then
    emit (StError ("Tokenizer not found at " ++ tokenizer_path)) ;;;
    ret all_absent
  else
    tokenizer <- lift (RecipeTokenizer_load env tokenizer_path) ;;
    if negb (os_path_exists env model_path) then
      emit (StError ("Model not found at " ++ model_path)) ;;;
      ret all_absent
    else
      checkpoint <- lift (torch_load env model_path device) ;;
      cfg <- lift (resolve_config checkpoint (tok_vocab_size tokenizer)) ;;
      emit (StWrite ("Model config: d_model=" ++ py_str env (d_model cfg)
                     ++ ", heads=" ++ py_str env (n_heads cfg)
                     ++ ", layers=" ++ py_str env (n_layers cfg))) ;;;
      model <- lift (RecipeTransformer env cfg) ;;
      state_dict <- lift (resolve_params checkpoint) ;;
      model <- lift (load_state_dict env model state_dict) ;;
      model <- lift (model_to env model device) ;;
      model <- lift (model_eval env model) ;;
      ret (Some model, Some tokenizer, Some device).

(** [load_model_and_tokenizer()]: the body under [except Exception]. *)
Definition load_model_and_tokenizer (env : Env) : io LoadedResources :=
  try_except (load_body env)
    (fun e =>
       emit (StError ("Error loading model: " ++ exn_str e)) ;;;
       ret all_absent).

Definition reports_error (evs : list event) : Prop :=
  exists msg, In (StError msg) evs.

(** Every step of the loader went through, with these results. *)
Definition load_steps (env : Env) (m : Model) (t : Tokenizer) (d : Device)
  : Prop :=
  d = select_device (mps_is_available env) (cuda_is_available env) /\
  os_path_exists env tokenizer_path = true /\
  RecipeTokenizer_load env tokenizer_path = Ok t /\
  os_path_exists env model_path = true /\
  exists checkpoint cfg m0 state_dict m1 m2,
    torch_load env model_path d = Ok checkpoint /\
    resolve_config checkpoint (tok_vocab_size t) = Ok cfg /\
    RecipeTransformer env cfg = Ok m0 /\
    resolve_params checkpoint = Ok state_dict /\
    load_state_dict env m0 state_dict = Ok m1 /\
    model_to env m1 d = Ok m2 /\
    model_eval env m2 = Ok m.

End Loader.

(** ** The generate trigger (app.py lines 149-207) *)

Module Handler.
Import PyStr Py Eff Loader.
Local Open Scope io_scope.

Definition nl : string := String (ascii_of_nat 10) EmptyString.
Definition dq : string := String (ascii_of_nat 34) EmptyString.

Definition empty_input_warning : string :=
  "Please enter some ingredients first!".
Definition load_failure_message : string :=
  "Model failed to load. Please check the logs.".

(** The four sidebar values. *)
Record Targets : Type := mkTargets {
  target_calories : pyval;
  target_protein : pyval;
  target_carbs : pyval;
  target_fat : pyval
}.

Definition nutrition_info (t : Targets) : dict :=
  [("calories", target_calories t); ("protein", target_protein t);
   ("carbs", target_carbs t); ("fat", target_fat t)].

(** Attribute access on a name that may hold [None]. *)
Definition attr_of {A} (o : option A) (name : string) : result A :=
  match o with
  | Some a => Ok a
  | None =>
      Raise (AttributeError
               ("'NoneType' object has no attribute '" ++ name ++ "'"))
  end.

Definition summary (env : Env) (ingredients : list string) (t : Targets)
  : string :=
  "**Based on:** " ++ String.concat ", " ingredients ++ nl ++ nl
  ++ "**Goals:** " ++ py_str env (target_calories t) ++ "kcal | P:"
  ++ py_str env (target_protein t) ++ "g | C:"
  ++ py_str env (target_carbs t) ++ "g | F:"
  ++ py_str env (target_fat t) ++ "g".

(** The f-string of lines 198-203, with the indentation it has in the
    source. *)
Definition indent20 : string := "                    ".
Definition indent24 : string := "                        ".

Definition recipe_card (recipe_text : string) : string :=
  nl ++ indent20 ++ "<div class=" ++ dq ++ "recipe-card" ++ dq ++ ">" ++ nl
  ++ indent24 ++ "<h3>Chef's Suggestion</h3>" ++ nl
  ++ indent24 ++ "<p style=" ++ dq ++ "font-size: 1.1em; line-height: 1.6;"
  ++ dq ++ ">" ++ recipe_text ++ "</p>" ++ nl
  ++ indent20 ++ "</div>" ++ nl
  ++ indent20.

(** The calls into the model side, each recorded with the arguments it is
    made with. *)
Definition call_format (env : Env) (ingredients : list string) (info : dict)
  : io string :=
  emit (CallFormat ingredients info) ;;;
  lift (format_ingredients_for_input env ingredients info).

Definition call_encode (tok : Tokenizer) (text : string) (max_length : Z)
  : io (list Z) :=
  emit (CallEncode text max_length) ;;;
  lift (tok_encode tok text max_length).

Definition call_generate (model : Model) (input : Tensor) (tok : Tokenizer)
    (max_length : Z) (temperature : Q) (top_k : Z) : io (list Z) :=
  emit (CallGenerate (t_rows input) max_length temperature top_k) ;;;
  lift (m_generate model input tok max_length temperature top_k).

Definition call_decode (tok : Tokenizer) (ids : list Z)
    (skip_special_tokens : bool) : io string :=
  emit (CallDecode ids skip_special_tokens) ;;;
  lift (tok_decode tok ids skip_special_tokens).

(** Lines 160-203: the body of the inner [try]. *)
Definition generate_body (env : Env) (ingredients_input : string)
    (t : Targets) (model : Model) (tokenizer : option Tokenizer)
    (device : option Device) : io unit :=
  let ingredients_list := Ingredients.ingredients_list ingredients_input in
  let info := nutrition_info t in
  input_text <- call_format env ingredients_list info ;;
  tok <- lift (attr_of tokenizer "encode") ;;
  input_ids <- call_encode tok input_text 200 ;;
  input_tensor <- lift (torch_tensor_to env input_ids device) ;;
  output_ids <- call_generate model input_tensor tok 300 (8 # 10) 50 ;;
  recipe_text <- call_decode tok output_ids true ;;
  let recipe_text := Postprocess.clean recipe_text in
  emit (StInfo (summary env ingredients_list t)) ;;;
  emit (StMarkdown (recipe_card recipe_text)).

(** The inner [try] with its handler, as one computation. *)
Definition guarded_generation (env : Env) (ingredients_input : string)
    (t : Targets) (m : Model) (tokenizer : option Tokenizer)
    (device : option Device) : io unit :=
  try_except (generate_body env ingredients_input t m tokenizer device)
    (fun e =>
       emit (StError ("An error occurred during generation: "
                      ++ exn_str e)) ;;;
       emit (StException e)).

(** Lines 149-207: what one run of the script does after loading.  The
    pictograph in front of the subheader text is left out. *)
Definition on_generate (env : Env) (generate_btn : bool)
    (ingredients_input : string) (t : Targets) (res : LoadedResources)
  : io unit :=
  let '(model, tokenizer, device) := res in
  if generate_btn then
    if String.eqb ingredients_input "" then
      emit (StWarning empty_input_warning)
    else
      match model with
      | None => emit (StError load_failure_message)
      | Some m =>
          emit (StSubheader "Generated Recipe") ;;;
          emit (StSpinner "Chef AI is cooking...") ;;;
          try_except (generate_body env ingredients_input t m tokenizer device)
            (fun e =>
               emit (StError ("An error occurred during generation: "
                              ++ exn_str e)) ;;;
               emit (StException e))
      end
  else ret tt.

(** Lines 146-207: one run of the script from the loading on (the page
    set-up and the widgets above it only supply the arguments). *)
Definition script (env : Env) (generate_btn : bool)
    (ingredients_input : string) (t : Targets) : io unit :=
  res <- load_model_and_tokenizer env ;;
  on_generate env generate_btn ingredients_input t res.

(** A call into the core: formatting, encoding, generation, decoding. *)
Definition is_core_call (e : event) : bool :=
  match e with
  | CallFormat _ _ | CallEncode _ _ | CallGenerate _ _ _ _ | CallDecode _ _ =>
      true
  | _ => false
  end.



(** The sampling parameters of a recorded call are the fixed ones. *)
Definition fixed_parameters (e : event) : Prop :=
  match e with
  | CallEncode _ max_length => max_length = 200%Z
  | CallGenerate _ max_length temperature top_k =>
      max_length = 300%Z /\ temperature = (8 # 10)%Q /\ top_k = 50%Z
  | _ => True
  end.

End Handler.

(** ** The generation procedure *)

Module Generation.

Section Generate.

(** The source of randomness, and one decoding step: the forward pass, the
    temperature scaling, the top-k restriction and the draw, as one
    operation of the model side. *)
Variable Rng : Type.
Variable sample_next : Q -> Z -> list Z -> Rng -> Z * Rng.
Variable eos : Z.

(** Modelled from the spec: the body of [generate] is not in app.py, which
    only calls it.  Section 4.5: a growing sequence seeded with the input;
    each step samples one token and appends it; the procedure stops when
    the end-of-sequence token was sampled or when the sequence reaches
    [max_length], whichever comes first.  [None] means the rounds given
    were not enough. *)
Fixpoint generate_loop (rounds : nat) (max_length : Z) (temperature : Q)
    (top_k : Z) (seq : list Z) (g : Rng) : option (list Z) :=
  match rounds with
  | O => None
  | S n =>
      let (tok, g') := sample_next temperature top_k seq g in
      let seq' := (seq ++ [tok])%list in
      if (tok =? eos)%Z || (max_length <=? Z.of_nat (List.length seq'))%Z
      then Some seq'
      else generate_loop n max_length temperature top_k seq' g'
  end.

(** The procedure has stopped for one of its two reasons. *)
Definition stopped (max_length : Z) (out : list Z) : Prop :=
  List.last out eos = eos \/ (max_length <= Z.of_nat (List.length out))%Z.

(** Modelled from the spec: the whole call.  One round appends one token,
    so [max_length] rounds (one, when [max_length] is smaller) are asked
    for. *)
Definition generate (input_ids : list Z) (max_length : Z) (temperature : Q)
    (top_k : Z) (g : Rng) : option (list Z) :=
  generate_loop (Nat.max 1 (Z.to_nat max_length)) max_length temperature
    top_k input_ids g.

End Generate.

(** A sampler that always draws token 7, never the end token 3. *)
Definition never_eos (_ : Q) (_ : Z) (_ : list Z) (g : nat) : Z * nat :=
  (7%Z, S g).

End Generation.

(** ** A small concrete world, to run the script on *)

Module Samples.
Import Py Eff Loader Handler.

Definition tokenizer : Tokenizer :=
  mkTokenizer 8000
    (fun _ _ => Ok [2%Z; 17%Z; 5%Z])
    (fun _ _ => Ok "mix well. serve warm").

Definition model : Model :=
  mkModel (fun _ _ _ _ _ => Ok [2%Z; 17%Z; 5%Z; 40%Z; 3%Z]).

(** Both artifacts are on disk, every call goes through, and [torch.load]
    gives [checkpoint]. *)
Definition env_with (checkpoint : pyval) : Env :=
  mkEnv false false (fun _ => true)
    (fun _ => Ok tokenizer)
    (fun _ _ => Ok checkpoint)
    (fun _ => Ok model)
    (fun m _ => Ok m)
    (fun m _ => Ok m)
    (fun m => Ok m)
    (fun _ _ => Ok "ingredients: rice | calories: 500")
    (fun ids d => Ok (mkTensor [ids] d))
    (fun _ => "?").

Definition targets : Targets :=
  mkTargets (VInt 500) (VFloat (30 # 1)) (VFloat (40 # 1)) (VFloat (20 # 1)).

(** A checkpoint saved from a wrapped model. *)
Definition wrapped_checkpoint : pyval :=
  VDict [("d_model", VInt 128);
         ("model_state_dict", VDict [("module.embed.weight", VTensor 1)])].

(** A checkpoint whose parameter mapping is empty. *)
Definition empty_checkpoint : pyval :=
  VDict [("vocab_size", VInt 8000); ("model_state_dict", VDict [])].

End Samples.

(** * Properties *)

Import PyStr Py Eff.

(** ** Strings *)

Lemma append_empty_r (s : string) : s ++ "" = s.
Proof. induction s as [|c r IH]; simpl; [reflexivity | now rewrite IH]. Qed.

Lemma append_assoc (a b c : string) : (a ++ b) ++ c = a ++ (b ++ c).
Proof. induction a as [|x r IH]; simpl; [reflexivity | now rewrite IH]. Qed.

Lemma blanks_lstrip (s : string) : s = blanks s ++ lstrip s.
Proof.
  induction s as [|c r IH]; simpl; [reflexivity|].
  destruct (is_space c); simpl; [now rewrite <- IH | reflexivity].
Qed.

Lemma lstrip_length (s : string) : String.length (lstrip s) <= String.length s.
Proof.
  induction s as [|c r IH]; simpl; [lia|].
  destruct (is_space c); simpl; lia.
Qed.

Lemma lstrip_first (s : string) (c : ascii) :
  first_char (lstrip s) = Some c -> is_space c = false.
Proof.
  induction s as [|x r IH]; simpl; [discriminate|].
  destruct (is_space x) eqn:E; simpl; [exact IH|].
  intros H; injection H as <-; exact E.
Qed.

(** ** Splitting and stripping *)

Section ParseFacts.
Import UText.

Lemma u_blanks_lstrip (s : ustr) : s = (blanks s ++ lstrip s)%list.
Proof.
  induction s as [|c r IH]; simpl; [reflexivity|].
  destruct (is_space c); simpl; [now rewrite <- IH | reflexivity].
Qed.

Lemma u_blanks_all_space (s : ustr) : forallb is_space (blanks s) = true.
Proof.
  induction s as [|c r IH]; simpl; [reflexivity|].
  destruct (is_space c) eqn:E; simpl; [now rewrite E | reflexivity].
Qed.

Lemma u_lstrip_first (s : ustr) (c : N) :
  first_char (lstrip s) = Some c -> is_space c = false.
Proof.
  induction s as [|x r IH]; simpl; [discriminate|].
  destruct (is_space x) eqn:E; simpl; [exact IH|].
  intros H; injection H as <-; exact E.
Qed.

Lemma u_rstrip_decomp (s : ustr) :
  exists r, s = (rstrip s ++ r)%list /\ forallb is_space r = true.
Proof.
  induction s as [|c t [r [Hr Hs]]]; simpl.
  - exists []; split; reflexivity.
  - destruct (rstrip t) as [|y t'] eqn:E.
    + destruct (is_space c) eqn:Ec.
      * exists (c :: t); split; [reflexivity|].
        simpl. rewrite Ec. simpl in Hr. now rewrite Hr.
      * exists r; split; [|exact Hs]. simpl. f_equal. exact Hr.
    + exists r; split; [|exact Hs]. simpl. f_equal. exact Hr.
Qed.

Lemma u_rstrip_last (s : ustr) (c : N) :
  last_char (rstrip s) = Some c -> is_space c = false.
Proof.
  induction s as [|x t IH]; simpl; [discriminate|].
  destruct (rstrip t) as [|y t'] eqn:E.
  - destruct (is_space x) eqn:Ex; simpl; [discriminate|].
    intros H; injection H as <-; exact Ex.
  - simpl. simpl in IH. exact IH.
Qed.

Lemma u_rstrip_first (s : ustr) (c : N) :
  first_char (rstrip s) = Some c -> first_char s = Some c.
Proof.
  destruct s as [|x t]; simpl; [discriminate|].
  destruct (rstrip t); [destruct (is_space x)|]; simpl; easy.
Qed.

Lemma strip_stripped (p : ustr) : Ingredients.stripped p (strip p).
Proof.
  unfold Ingredients.stripped, strip.
  destruct (u_rstrip_decomp (lstrip p)) as [r [Hr Hs]].
  exists (blanks p), r. repeat split.
  - rewrite <- Hr. apply u_blanks_lstrip.
  - apply u_blanks_all_space.
  - exact Hs.
  - intros c H. apply u_rstrip_first in H. now apply u_lstrip_first in H.
  - apply u_rstrip_last.
Qed.

Lemma split_nonempty (sep : N) (s : ustr) : split sep s <> [].
Proof.
  induction s as [|c r IH]; simpl; [discriminate|].
  destruct (N.eqb c sep); [discriminate|].
  destruct (split sep r); discriminate.
Qed.

Lemma split_join (sep : N) (s : ustr) : join [sep] (split sep s) = s.
Proof.
  induction s as [|c r IH]; [reflexivity|]. cbn [split].
  destruct (N.eqb_spec c sep) as [->|Hne].
  - pose proof (split_nonempty sep r) as Hn.
    destruct (split sep r) as [|h t]; [contradiction|].
    cbn [join app] in *. now rewrite IH.
  - destruct (split sep r) as [|h t] eqn:E; [now apply split_nonempty in E|].
    cbn [join] in *. destruct t; cbn [app]; now rewrite <- IH.
Qed.

Lemma split_no_sep (sep : N) (s : ustr) :
  Forall (fun p => count_char sep p = 0) (split sep s).
Proof.
  induction s as [|c r IH]; simpl; [repeat constructor|].
  destruct (N.eqb c sep) eqn:E; [constructor; [reflexivity | exact IH]|].
  destruct (split sep r) as [|h t]; [repeat constructor; simpl; now rewrite E|].
  inversion IH; subst. constructor; [simpl; now rewrite E | assumption].
Qed.

Lemma split_length (sep : N) (s : ustr) :
  List.length (split sep s) = S (count_char sep s).
Proof.
  induction s as [|c r IH]; simpl; [reflexivity|].
  destruct (N.eqb c sep); simpl; [now rewrite IH|].
  destruct (split sep r) as [|h t]; simpl in *; lia.
Qed.

Lemma Forall2_map_r {A B} (R : A -> B -> Prop) (f : A -> B) (l : list A) :
  (forall a, R a (f a)) -> Forall2 R l (map f l).
Proof. intros H; induction l; simpl; constructor; auto. Qed.

(** C6: for every input text, the ingredient list is the comma split of the
    input with every piece stripped of its surrounding blanks: the pieces
    joined by commas give the input back, no piece holds a comma, there is
    one piece more than commas (empty ones are kept), each element is its
    piece without leading and trailing blanks, and
    "chicken breast, broccoli, " gives the three elements with the empty one
    last. *)
Theorem ingredients_list_is_split_and_strip (ingredients_input : ustr) :
  (exists pieces,
      join [comma] pieces = ingredients_input /\
      Forall (fun p => count_char comma p = 0) pieces /\
      List.length pieces = S (count_char comma ingredients_input) /\
      Forall2 Ingredients.stripped pieces
        (Ingredients.parse ingredients_input)) /\
  List.length (Ingredients.parse ingredients_input)
  = S (count_char comma ingredients_input) /\
  Ingredients.parse (code_points "chicken breast, broccoli, ")
  = [code_points "chicken breast"; code_points "broccoli"; code_points ""] /\
  Ingredients.ingredients_list "chicken breast, broccoli, "
  = ["chicken breast"; "broccoli"; ""].
Proof.
  split; [|split; [|split]].
  - exists (split comma ingredients_input). repeat split.
    + apply split_join.
    + apply split_no_sep.
    + apply split_length.
    + apply Forall2_map_r, strip_stripped.
  - unfold Ingredients.parse.
    rewrite length_map. apply split_length.
  - reflexivity.
  - reflexivity.
Qed.

End ParseFacts.

(** ** The clean-up *)

Import Postprocess.

Lemma space_not_terminal (c : ascii) :
  is_space c = true -> is_terminal c = false.
Proof.
  unfold is_terminal. intros H.
  destruct (Ascii.eqb_spec c ".") as [->|_]; [discriminate H|].
  destruct (Ascii.eqb_spec c "!") as [->|_]; [discriminate H|].
  destruct (Ascii.eqb_spec c "?") as [->|_]; [discriminate H|].
  reflexivity.
Qed.

(** Blanks in front of the text are copied by the one-pass reading. *)
Lemma spec_sentences_blanks (s : string) :
  spec_sentences None s = blanks s ++ spec_sentences None (lstrip s).
Proof.
  induction s as [|c r IH]; [reflexivity|].
  cbn [blanks lstrip]. destruct (is_space c) eqn:E; [|reflexivity].
  cbn [spec_sentences]. rewrite (space_not_terminal c E).
  simpl. now rewrite <- IH.
Qed.

(** The one-pass reading with a mark pending, told by what follows the
    blanks. *)
Lemma spec_sentences_pending (p : ascii) (r ws : string) :
  spec_sentences (Some (p, ws)) r =
  match lstrip r with
  | EmptyString => String p (ws ++ blanks r)
  | String l rest =>
      if is_lower l
      then String p (String " " (String (upper l) (spec_sentences None rest)))
      else String p (ws ++ blanks r ++ spec_sentences None (lstrip r))
  end.
Proof.
  revert ws. induction r as [|c r IH]; intros ws.
  - simpl. now rewrite append_empty_r.
  - cbn [spec_sentences lstrip blanks].
    destruct (is_space c) eqn:Es.
    + rewrite IH.
      destruct (lstrip r) as [|l rest]; simpl.
      * now rewrite append_assoc.
      * destruct (is_lower l); [reflexivity|].
        now rewrite append_assoc.
    + destruct (is_lower c) eqn:El; [reflexivity|].
      cbn [spec_sentences append].
      destruct (is_terminal c); reflexivity.
Qed.

Lemma match_here_length (s : string) (g1 g2 : ascii) (rest : string) :
  match_here s = Some (g1, g2, rest) ->
  String.length rest + 2 <= String.length s.
Proof.
  destruct s as [|p r]; simpl; [discriminate|].
  destruct (is_terminal p); [|discriminate].
  pose proof (lstrip_length r) as Hl.
  destruct (lstrip r) as [|l t]; [discriminate|].
  destruct (is_lower l); [|discriminate].
  intros H; injection H as _ _ <-. simpl in Hl. lia.
Qed.

(** The scan of [re.sub] computes the one-pass reading, whenever it is given
    at least [length s] rounds. *)
Lemma re_sub_from_spec (n : nat) :
  forall s, String.length s <= n -> re_sub_from n s = spec_sentences None s.
Proof.
  induction n as [n IH] using lt_wf_ind.
  intros s Hn. destruct n as [|f].
  - destruct s; [reflexivity | simpl in Hn; lia].
  - destruct s as [|c r]; [reflexivity|].
    cbn [re_sub_from]. simpl in Hn.
    destruct (match_here (String c r)) as [[[g1 g2] rest]|] eqn:Em.
    + pose proof (match_here_length _ _ _ _ Em) as Hlen. simpl in Hlen.
      rewrite (IH f) by lia.
      simpl in Em. cbn [spec_sentences].
      destruct (is_terminal c); [|discriminate].
      rewrite spec_sentences_pending.
      destruct (lstrip r) as [|l t]; [discriminate|].
      destruct (is_lower l); [|discriminate].
      injection Em as <- <- <-. reflexivity.
    + rewrite (IH f) by lia.
      simpl in Em. cbn [spec_sentences].
      destruct (is_terminal c); [|reflexivity].
      rewrite spec_sentences_pending.
      rewrite (spec_sentences_blanks r).
      destruct (lstrip r) as [|l t].
      * simpl. now rewrite append_empty_r.
      * destruct (is_lower l); [discriminate | reflexivity].
Qed.

Lemma re_sub_spec (s : string) : re_sub s = spec_sentences None s.
Proof. apply re_sub_from_spec. lia. Qed.

(** More rounds than characters change nothing: the scan never runs out. *)
Lemma re_sub_from_enough (n : nat) (s : string) :
  String.length s <= n -> re_sub_from n s = re_sub s.
Proof. intros H. rewrite re_sub_spec. now apply re_sub_from_spec. Qed.

Lemma upper_lower_tail (s : string) :
  spec_capitalize_first (lower_tail s) = capitalize s.
Proof. destruct s; reflexivity. Qed.

Lemma spec_sentences_first (c : ascii) (r : string) :
  first_char (spec_sentences None (String c r)) = Some c.
Proof.
  cbn [spec_sentences]. destruct (is_terminal c); [|reflexivity].
  rewrite spec_sentences_pending.
  destruct (lstrip r) as [|l t]; [reflexivity|].
  destruct (is_lower l); reflexivity.
Qed.

(** C4, as the claim states it, fails: the character "W" of "hello World" is
    neither the first character nor part of an occurrence of a terminal mark,
    yet the clean-up changes it. *)
Lemma clean_changes_other_characters :
  clean "hello World" = "Hello world" /\
  spec_clean "hello World" = "Hello World" /\
  ~ (forall text, clean text = spec_clean text).
Proof.
  split; [reflexivity|]. split; [reflexivity|].
  intros H. specialize (H "hello World"). discriminate H.
Qed.

(** C4, amended: the clean-up lower-cases every character after the first
    and then does what the claim says: the first character is upper-cased,
    and each terminal mark followed by optional blanks and a lower-case letter
    becomes the mark, one blank and the upper-case letter, every other
    character being copied; "hello world. this is nutrigen." becomes
    "Hello world. This is nutrigen.". *)
Theorem clean_is_spec_clean_of_lowered (text : string) :
  clean text = spec_clean (lower_tail text) /\
  first_char (clean text) = option_map upper (first_char text) /\
  clean "hello world. this is nutrigen." = "Hello world. This is nutrigen.".
Proof.
  split; [|split].
  - unfold clean, spec_clean. now rewrite re_sub_spec, upper_lower_tail.
  - unfold clean. rewrite re_sub_spec.
    destruct text as [|c r]; [reflexivity|].
    cbn [capitalize]. apply spec_sentences_first.
  - reflexivity.
Qed.

(** ** Checkpoint resolution *)

Import Loader.

Lemma prefix_drop (p s : string) :
  String.prefix p s = true -> s = p ++ drop (String.length p) s.
Proof.
  revert s. induction p as [|a p IH]; intros s H; [reflexivity|].
  destruct s as [|b s]; simpl in H; [discriminate|].
  destruct (Ascii.ascii_dec a b) as [<-|]; [|discriminate].
  simpl. f_equal. now apply IH.
Qed.

Lemma wrapped_key (k : string) :
  startswith k wrapper_prefix = true -> k = wrapper_prefix ++ strip_key k.
Proof. intros H. exact (prefix_drop wrapper_prefix k H). Qed.

Lemma strip_key_injective (k1 k2 : string) :
  startswith k1 wrapper_prefix = true ->
  startswith k2 wrapper_prefix = true ->
  strip_key k1 = strip_key k2 -> k1 = k2.
Proof.
  intros H1 H2 E.
  rewrite (wrapped_key k1 H1), (wrapped_key k2 H2). now rewrite E.
Qed.

(** A stripped key still carries the prefix exactly when the key carried it
    twice. *)
Lemma strip_key_prefix_again (k : string) :
  startswith k wrapper_prefix = true ->
  startswith (strip_key k) wrapper_prefix
  = startswith k (wrapper_prefix ++ wrapper_prefix).
Proof.
  intros H. rewrite (wrapped_key k H) at 2.
  generalize (strip_key k) as r. intros r.
  unfold startswith, wrapper_prefix. simpl.
  repeat (match goal with
          | |- context [Ascii.ascii_dec ?a ?a] =>
              destruct (Ascii.ascii_dec a a) as [_|N]; [|now elim N]
          end).
  reflexivity.
Qed.

Lemma dict_set_keys (d : dict) (k : string) (v : pyval) (k' : string) :
  In k' (dict_keys (dict_set d k v)) <-> k' = k \/ In k' (dict_keys d).
Proof.
  induction d as [|[k1 v1] r IH]; simpl.
  - intuition auto.
  - destruct (String.eqb_spec k1 k) as [->|Hne]; simpl.
    + intuition auto.
    + rewrite IH. intuition auto.
Qed.

Lemma dict_set_fresh (d : dict) (k : string) (v : pyval) :
  ~ In k (dict_keys d) -> dict_set d k v = (d ++ [(k, v)])%list.
Proof.
  induction d as [|[k1 v1] r IH]; simpl; intros H; [reflexivity|].
  destruct (String.eqb_spec k1 k) as [->|Hne]; [tauto|].
  rewrite IH; tauto.
Qed.

Lemma rekey_fold_keys (f : string -> string) (d acc : dict) (k' : string) :
  In k' (dict_keys
           (fold_left (fun a kv => dict_set a (f (fst kv)) (snd kv)) d acc))
  <-> In k' (dict_keys acc) \/ exists k, In k (dict_keys d) /\ k' = f k.
Proof.
  revert acc. induction d as [|[k v] r IH]; intros acc; simpl.
  - split; [auto | intros [H|[k [[] _]]]; exact H].
  - rewrite IH, dict_set_keys. split.
    + intros [[->|H]|[k0 [H ->]]]; eauto.
    + intros [H|[k0 [[<-|H] ->]]]; eauto.
Qed.

Lemma rekey_fold_distinct (f : string -> string) (d acc : dict) :
  NoDup (map f (dict_keys d)) ->
  (forall k, In k (dict_keys d) -> ~ In (f k) (dict_keys acc)) ->
  fold_left (fun a kv => dict_set a (f (fst kv)) (snd kv)) d acc
  = (acc ++ map (rekey_entry f) d)%list.
Proof.
  revert acc. induction d as [|[k v] r IH]; intros acc Hnd Hfresh; simpl.
  - now rewrite app_nil_r.
  - simpl in Hnd. inversion Hnd as [|? ? Hk Hr]; subst.
    rewrite dict_set_fresh by (apply Hfresh; simpl; auto).
    rewrite IH; [now rewrite <- app_assoc | exact Hr |].
    intros k0 Hin Hacc. unfold dict_keys in Hacc.
    rewrite map_app in Hacc. apply in_app_or in Hacc.
    destruct Hacc as [Hacc|[Heq|[]]].
    + apply (Hfresh k0); simpl; auto.
    + simpl in Heq. apply Hk. rewrite Heq. now apply in_map.
Qed.

Lemma strip_keys_distinct (ks : list string) :
  NoDup ks ->
  Forall (fun k => startswith k wrapper_prefix = true) ks ->
  NoDup (map strip_key ks).
Proof.
  induction 1 as [|k ks Hk Hnd IH]; intros Hall; simpl; constructor.
  - inversion Hall as [|? ? Hp Hps]; subst.
    intros Hin. apply in_map_iff in Hin. destruct Hin as [k' [E Hin']].
    rewrite Forall_forall in Hps.
    apply strip_key_injective in E; [now subst | now apply Hps | exact Hp].
  - apply IH. now inversion Hall.
Qed.

Lemma resolve_params_dict (checkpoint : pyval) (k0 : string) (v0 : pyval)
    (d : dict) :
  py_get checkpoint "model_state_dict" checkpoint = Ok (VDict ((k0, v0) :: d)) ->
  resolve_params checkpoint =
  Ok (if startswith k0 wrapper_prefix
      then dict_rekey strip_key ((k0, v0) :: d)
      else (k0, v0) :: d).
Proof.
  intros H. unfold resolve_params. rewrite H. simpl.
  destruct (startswith k0 wrapper_prefix); reflexivity.
Qed.

(** C1, as the claim states it, fails: a mapping whose only key is
    "module.module.weight" has all its keys under the prefix, and the
    resolved key "module.weight" still carries it. *)
Lemma stripped_key_keeps_doubled_prefix :
  resolve_params
    (VDict [("model_state_dict", VDict [("module.module.weight", VTensor 0)])])
  = Ok [("module.weight", VTensor 0)] /\
  startswith "module.module.weight" wrapper_prefix = true /\
  startswith "module.weight" wrapper_prefix = true /\
  ~ (forall checkpoint d d',
       py_get checkpoint "model_state_dict" checkpoint = Ok (VDict d) ->
       d <> [] ->
       NoDup (dict_keys d) ->
       Forall (fun k => startswith k wrapper_prefix = true) (dict_keys d) ->
       resolve_params checkpoint = Ok d' ->
       Forall (fun k => startswith k wrapper_prefix = false) (dict_keys d')).
Proof.
  split; [reflexivity|]. split; [reflexivity|]. split; [reflexivity|].
  intros H.
  specialize (H (VDict [("module.module.weight", VTensor 0)])
                [("module.module.weight", VTensor 0)]
                [("module.weight", VTensor 0)]
                eq_refl).
  assert (F : Forall (fun k => startswith k wrapper_prefix = false)
                (dict_keys [("module.weight", VTensor 0)])).
  { apply H.
    - discriminate.
    - repeat constructor. simpl. tauto.
    - repeat constructor.
    - reflexivity. }
  inversion F as [|? ? Hk _]. discriminate Hk.
Qed.

(** C1, amended: with a non-empty extracted mapping, the first seven
    characters are cut from every key exactly when the first key starts with
    "module."; otherwise the mapping is left as it is.  When all keys start
    with "module.", the resolved mapping has the same entries in the same
    order, each key being the old one without its first seven characters
    (so the same number of keys), and a resolved key still starts with
    "module." exactly when the old key started with "module.module.". *)
Theorem resolve_params_strips_wrapper_prefix
    (checkpoint : pyval) (d : dict) :
  py_get checkpoint "model_state_dict" checkpoint = Ok (VDict d) ->
  d <> [] ->
  NoDup (dict_keys d) ->
  exists k0 d',
    hd_error (dict_keys d) = Some k0 /\
    resolve_params checkpoint = Ok d' /\
    (startswith k0 wrapper_prefix = true ->
       d' = dict_rekey strip_key d /\
       forall k', In k' (dict_keys d') <->
                  exists k, In k (dict_keys d) /\ k' = strip_key k) /\
    (startswith k0 wrapper_prefix = false -> d' = d) /\
    (Forall (fun k => startswith k wrapper_prefix = true) (dict_keys d) ->
       d' = map (rekey_entry strip_key) d /\
       List.length d' = List.length d /\
       dict_keys d' = map strip_key (dict_keys d) /\
       forall k, In k (dict_keys d) ->
                 startswith (strip_key k) wrapper_prefix
                 = startswith k (wrapper_prefix ++ wrapper_prefix)).
Proof.
  intros Hget Hne Hnd.
  destruct d as [|[k0 v0] r]; [contradiction|].
  exists k0.
  eexists. split; [reflexivity|].
  split; [exact (resolve_params_dict _ _ _ _ Hget)|].
  split; [|split].
  - intros Hp. rewrite Hp. split; [reflexivity|].
    intros k'. unfold dict_rekey. rewrite rekey_fold_keys. simpl.
    split; [intros [[]|H]; exact H | auto].
  - intros Hp. now rewrite Hp.
  - intros Hall.
    assert (Hp : startswith k0 wrapper_prefix = true)
      by (now inversion Hall).
    rewrite Hp.
    assert (E : dict_rekey strip_key ((k0, v0) :: r)
                = map (rekey_entry strip_key) ((k0, v0) :: r)).
    { unfold dict_rekey. rewrite rekey_fold_distinct; [reflexivity | |].
      - now apply strip_keys_distinct.
      - intros k _ []. }
    rewrite E. split; [reflexivity|]. split; [apply length_map|].
    split.
    + unfold dict_keys. rewrite !map_map. reflexivity.
    + intros k Hin. apply strip_key_prefix_again.
      rewrite Forall_forall in Hall. now apply Hall.
Qed.

(** A wrapped checkpoint with two parameters, resolved. *)
Lemma resolve_params_strips_wrapper_prefix_witness :
  exists k0 d',
    hd_error (dict_keys [("module.fc.weight", VTensor 1);
                         ("module.fc.bias", VTensor 2)]) = Some k0 /\
    resolve_params (VDict [("module.fc.weight", VTensor 1);
                           ("module.fc.bias", VTensor 2)]) = Ok d' /\
    (startswith k0 wrapper_prefix = true ->
       d' = dict_rekey strip_key [("module.fc.weight", VTensor 1);
                                  ("module.fc.bias", VTensor 2)] /\
       forall k', In k' (dict_keys d') <->
                  exists k, In k (dict_keys [("module.fc.weight", VTensor 1);
                                             ("module.fc.bias", VTensor 2)])
                            /\ k' = strip_key k) /\
    (startswith k0 wrapper_prefix = false ->
       d' = [("module.fc.weight", VTensor 1); ("module.fc.bias", VTensor 2)]) /\
    (Forall (fun k => startswith k wrapper_prefix = true)
       (dict_keys [("module.fc.weight", VTensor 1);
                   ("module.fc.bias", VTensor 2)]) ->
       d' = map (rekey_entry strip_key)
              [("module.fc.weight", VTensor 1); ("module.fc.bias", VTensor 2)] /\
       List.length d' = 2 /\
       dict_keys d' = map strip_key
                        (dict_keys [("module.fc.weight", VTensor 1);
                                    ("module.fc.bias", VTensor 2)]) /\
       forall k, In k (dict_keys [("module.fc.weight", VTensor 1);
                                  ("module.fc.bias", VTensor 2)]) ->
                 startswith (strip_key k) wrapper_prefix
                 = startswith k (wrapper_prefix ++ wrapper_prefix)).
Proof.
  apply (resolve_params_strips_wrapper_prefix
           (VDict [("module.fc.weight", VTensor 1);
                   ("module.fc.bias", VTensor 2)])
           [("module.fc.weight", VTensor 1); ("module.fc.bias", VTensor 2)]).
  - reflexivity.
  - discriminate.
  - repeat constructor; simpl; intuition discriminate.
Defined.

(** C2, as the claim states it, fails: the checkpoint {'config': None} is a
    mapping that lacks a [config] sub-mapping, and resolution raises the
    AttributeError of [None.get] instead of yielding the defaults. *)
Lemma config_none_raises :
  dict_lookup [("config", VNone)] "config" = Some VNone /\
  resolve_config (VDict [("config", VNone)]) 8000
  = Raise (AttributeError "'NoneType' object has no attribute 'get'") /\
  ~ (forall checkpoint tokenizer_vocab_size,
       (forall c, dict_lookup checkpoint "config" <> Some (VDict c)) ->
       exists cfg,
         resolve_config (VDict checkpoint) tokenizer_vocab_size = Ok cfg /\
         n_heads cfg = VInt 8 /\ n_layers cfg = VInt 4 /\
         d_ff cfg = VInt 1024 /\ dropout cfg = VFloat (1 # 10)).
Proof.
  split; [reflexivity|]. split; [reflexivity|].
  intros H.
  destruct (H [("config", VNone)] 8000%Z) as [cfg [E _]].
  - intros c E. discriminate E.
  - discriminate E.
Qed.

(** C2, amended: for every checkpoint mapping whose [config] entry, when
    there is one, is a mapping, and every tokenizer vocabulary size,
    resolution yields a configuration with every field set: [vocab_size] is
    the checkpoint's when present, else the tokenizer's; [d_model] is the
    checkpoint's when present, else 256; the other four come from [config]
    when it has them; and without a [config] entry they are 8, 4, 1024 and
    0.1. *)
Theorem resolve_config_defaults
    (checkpoint : dict) (tokenizer_vocab_size : Z) :
  (dict_lookup checkpoint "config" = None \/
   exists c, dict_lookup checkpoint "config" = Some (VDict c)) ->
  exists cfg,
    resolve_config (VDict checkpoint) tokenizer_vocab_size = Ok cfg /\
    vocab_size cfg
    = match dict_lookup checkpoint "vocab_size" with
      | Some v => v
      | None => VInt tokenizer_vocab_size
      end /\
    d_model cfg
    = match dict_lookup checkpoint "d_model" with
      | Some v => v
      | None => VInt 256
      end /\
    (forall c, dict_lookup checkpoint "config" = Some (VDict c) ->
       n_heads cfg = get_or c "n_heads" (VInt 8) /\
       n_layers cfg = get_or c "n_layers" (VInt 4) /\
       d_ff cfg = get_or c "d_ff" (VInt 1024) /\
       dropout cfg = get_or c "dropout" (VFloat (1 # 10))) /\
    (dict_lookup checkpoint "config" = None ->
       n_heads cfg = VInt 8 /\ n_layers cfg = VInt 4 /\
       d_ff cfg = VInt 1024 /\ dropout cfg = VFloat (1 # 10)).
Proof.
  intros [Hc|[c Hc]]; unfold resolve_config; simpl; rewrite Hc; simpl;
    eexists; (split; [reflexivity|]); simpl;
    (split; [reflexivity|]); (split; [reflexivity|]); split.
  - intros c H. discriminate H.
  - intros _. repeat split.
  - intros c' H. injection H as <-. repeat split.
  - intros H. discriminate H.
Qed.

(** Outside that shape: a [config] entry that is not a mapping has no
    [get], and resolution raises. *)
Lemma resolve_config_config_not_mapping
    (checkpoint : dict) (tokenizer_vocab_size : Z) (v : pyval) :
  dict_lookup checkpoint "config" = Some v ->
  (forall c, v <> VDict c) ->
  resolve_config (VDict checkpoint) tokenizer_vocab_size
  = Raise (no_attribute v "get").
Proof.
  intros Hc Hv. unfold resolve_config. simpl. rewrite Hc.
  destruct v; try reflexivity. now elim (Hv d).
Qed.

(** A checkpoint that gives its own vocabulary size, different from the
    tokenizer's, and nothing else. *)
Lemma resolve_config_defaults_witness :
  exists cfg,
    resolve_config (VDict [("vocab_size", VInt 5000)]) 8000 = Ok cfg /\
    vocab_size cfg = VInt 5000 /\
    d_model cfg = VInt 256 /\
    (forall c, dict_lookup [("vocab_size", VInt 5000)] "config"
               = Some (VDict c) ->
       n_heads cfg = get_or c "n_heads" (VInt 8) /\
       n_layers cfg = get_or c "n_layers" (VInt 4) /\
       d_ff cfg = get_or c "d_ff" (VInt 1024) /\
       dropout cfg = get_or c "dropout" (VFloat (1 # 10))) /\
    (dict_lookup [("vocab_size", VInt 5000)] "config" = None ->
       n_heads cfg = VInt 8 /\ n_layers cfg = VInt 4 /\
       d_ff cfg = VInt 1024 /\ dropout cfg = VFloat (1 # 10)).
Proof.
  apply (resolve_config_defaults [("vocab_size", VInt 5000)] 8000).
  left. reflexivity.
Defined.

(** ** The loader *)

Ltac load_step :=
  match goal with
  | |- context [match ?r with Ok _ => _ | Raise _ => _ end] =>
      let E := fresh "E" in destruct r eqn:E; simpl
  end.

Ltac load_failed :=
  eexists; split; [reflexivity|]; left;
  split; [reflexivity|];
  split; [eexists; simpl; eauto 12|];
  intros (m' & t' & d' & -> & H1 & H2 & H3 & ck & cfg' & m0 & sd & m1 & m2
          & H4 & H5 & H6 & H7 & H8 & H9 & H10);
  congruence.

(** What the loader returns, by cases on its steps. *)
Lemma load_outcome (env : Env) :
  exists r,
    outcome (load_model_and_tokenizer env) = Ok r /\
    ((r = all_absent /\
      reports_error (trace (load_model_and_tokenizer env)) /\
      ~ (exists m t d, load_steps env m t d)) \/
     (exists m t d, r = (Some m, Some t, Some d) /\ load_steps env m t d)).
Proof.
  unfold load_model_and_tokenizer, load_body, outcome, trace, load_steps.
  simpl.
  destruct (os_path_exists env tokenizer_path) eqn:P1; simpl;
    [|load_failed].
  load_step; [|load_failed].
  destruct (os_path_exists env model_path) eqn:P2; simpl;
    [|load_failed].
  load_step; [|load_failed].
  load_step; [|load_failed].
  load_step; [|load_failed].
  load_step; [|load_failed].
  load_step; [|load_failed].
  load_step; [|load_failed].
  load_step; [|load_failed].
  eexists; split; [reflexivity|]. right.
  do 3 eexists. split; [reflexivity|].
  repeat (split; [first [reflexivity | eassumption]|]).
  do 6 eexists. repeat split; eassumption.
Qed.

(** C3: the loader never raises, and returns either the triple with nothing
    in it or the triple with everything in it.  It returns the first, with
    an error shown, exactly when some step fails (a missing path, a load
    that raises, a checkpoint that cannot be resolved, parameters the model
    rejects), and the second exactly when every step went through. *)
Theorem load_all_or_nothing (env : Env) :
  exists r,
    outcome (load_model_and_tokenizer env) = Ok r /\
    ((r = all_absent /\
      reports_error (trace (load_model_and_tokenizer env)) /\
      ~ (exists m t d, load_steps env m t d)) \/
     (exists m t d, r = (Some m, Some t, Some d) /\ load_steps env m t d)).
Proof. exact (load_outcome env). Qed.

(** C5: when the parameter mapping extracted from the loaded checkpoint is
    empty, reading its first key raises IndexError, the loader catches it,
    shows an error and returns the triple with nothing in it. *)
Theorem empty_parameter_mapping_is_reported (env : Env) (checkpoint : pyval) :
  torch_load env model_path
    (select_device (mps_is_available env) (cuda_is_available env))
  = Ok checkpoint ->
  py_get checkpoint "model_state_dict" checkpoint = Ok (VDict []) ->
  resolve_params checkpoint = Raise IndexError /\
  outcome (load_model_and_tokenizer env) = Ok all_absent /\
  reports_error (trace (load_model_and_tokenizer env)).
Proof.
  intros Hload Hget.
  assert (Hp : resolve_params checkpoint = Raise IndexError)
    by (unfold resolve_params; now rewrite Hget).
  split; [exact Hp|].
  destruct (load_outcome env)
    as [r [Ho [[-> [Hrep _]]|[m [t [d [_ Hsteps]]]]]]]; [now split|].
  exfalso.
  destruct Hsteps as (-> & _ & _ & _ & ck & cfg & m0 & sd & m1 & m2
                      & H4 & _ & _ & H7 & _).
  congruence.
Qed.

Lemma empty_parameter_mapping_is_reported_witness :
  resolve_params Samples.empty_checkpoint = Raise IndexError /\
  outcome (load_model_and_tokenizer (Samples.env_with Samples.empty_checkpoint))
  = Ok all_absent /\
  reports_error
    (trace (load_model_and_tokenizer (Samples.env_with Samples.empty_checkpoint))).
Proof.
  apply (empty_parameter_mapping_is_reported
           (Samples.env_with Samples.empty_checkpoint)
           Samples.empty_checkpoint); reflexivity.
Defined.

(** C9: the device choice is total and follows the fixed order: mps when
    it is available, else cuda when it is available, else cpu; and the
    device a successful load returns is that choice. *)
Theorem select_device_priority (env : Env) (cuda_available : bool) :
  select_device true cuda_available = mps /\
  select_device false true = cuda /\
  select_device false false = cpu /\
  forall m t d,
    outcome (load_model_and_tokenizer env) = Ok (Some m, Some t, Some d) ->
    d = select_device (mps_is_available env) (cuda_is_available env).
Proof.
  repeat (split; [reflexivity|]).
  intros m t d H.
  destruct (load_outcome env)
    as [r [Ho [[-> _]|[m' [t' [d' [-> Hsteps]]]]]]].
  - rewrite H in Ho. discriminate Ho.
  - rewrite H in Ho. injection Ho as _ _ ->. apply Hsteps.
Qed.

(** ** The generate trigger *)

Import Handler.

Ltac run_body :=
  unfold generate_body, call_format, call_encode, call_generate, call_decode,
    try_except, bind, lift, emit, attr_of, trace; simpl;
  repeat match goal with
         | |- context [match ?r with Ok _ => _ | Raise _ => _ end] =>
             destruct r; simpl
         end.

Lemma guarded_generation_parameters env input t m tokenizer device :
  Forall fixed_parameters
    (trace (guarded_generation env input t m tokenizer device)).
Proof.
  unfold guarded_generation. destruct tokenizer as [tok|]; run_body;
    repeat constructor.
Qed.

Lemma guarded_generation_messages env input t m tokenizer device :
  Forall (fun e => e <> StError load_failure_message
                   /\ e <> StWarning empty_input_warning)
    (trace (guarded_generation env input t m tokenizer device)).
Proof.
  unfold guarded_generation. destruct tokenizer as [tok|]; run_body;
    repeat constructor; discriminate.
Qed.

Lemma on_generate_loaded env input t m tokenizer device :
  input <> "" ->
  on_generate env true input t (Some m, tokenizer, device)
  = (StSubheader "Generated Recipe"
       :: StSpinner "Chef AI is cooking..."
       :: trace (guarded_generation env input t m tokenizer device),
     outcome (guarded_generation env input t m tokenizer device)).
Proof.
  intros Hne. unfold on_generate.
  destruct (String.eqb_spec input "") as [->|_]; [contradiction|].
  unfold guarded_generation, bind, emit, trace, outcome. simpl.
  destruct (try_except _ _) as [evs r]. reflexivity.
Qed.

Lemma on_generate_absent env input t tokenizer device :
  input <> "" ->
  on_generate env true input t (None, tokenizer, device)
  = ([StError load_failure_message], Ok tt).
Proof.
  intros Hne. unfold on_generate.
  destruct (String.eqb_spec input "") as [->|_]; [contradiction|].
  reflexivity.
Qed.

(** C8: on the trigger the empty-input test comes first: with an empty
    ingredient text the run shows the warning and nothing else, whatever the
    loaded resources are, so no call into the core is made; with a non-empty
    text and an absent model the run shows the load-failure message and
    nothing else; and that message is shown only when the trigger fired, the
    text is non-empty and the model is absent. *)
Theorem empty_input_checked_first
    (env : Env) (t : Targets) (res : LoadedResources) :
  on_generate env true "" t res = ([StWarning empty_input_warning], Ok tt) /\
  existsb is_core_call (trace (on_generate env true "" t res)) = false /\
  (forall input tokenizer device,
      input <> "" ->
      on_generate env true input t (None, tokenizer, device)
      = ([StError load_failure_message], Ok tt)) /\
  (forall generate_btn input,
      In (StError load_failure_message)
         (trace (on_generate env generate_btn input t res)) ->
      generate_btn = true /\ input <> "" /\ fst (fst res) = None).
Proof.
  destruct res as [[model tokenizer] device].
  split; [reflexivity|]. split; [reflexivity|]. split.
  - intros input tok dev Hne. now apply on_generate_absent.
  - intros btn input Hin.
    destruct btn; [|destruct Hin].
    destruct (String.eqb_spec input "") as [->|Hne].
    + simpl in Hin. destruct Hin as [H|[]]. discriminate H.
    + destruct model as [m|].
      * rewrite on_generate_loaded in Hin by exact Hne.
        simpl in Hin. destruct Hin as [H|[H|Hin]]; try discriminate H.
        pose proof (guarded_generation_messages env input t m tokenizer device)
          as F.
        rewrite Forall_forall in F. apply F in Hin. now destruct Hin.
      * repeat split; assumption.
Qed.

(** C10: whatever the environment, the trigger, the ingredient text, the
    targets and the loaded resources, every encoding the run asks for has
    max_length 200 and every generation has max_length 300, temperature 0.8
    and top_k 50; on the sample world both calls are made, so the statement
    is not empty. *)
Theorem generation_parameters_fixed
    (env : Env) (generate_btn : bool) (ingredients_input : string)
    (t : Targets) (res : LoadedResources) :
  Forall fixed_parameters
    (trace (on_generate env generate_btn ingredients_input t res)) /\
  exists text ids,
    In (CallEncode text 200)
       (trace (on_generate (Samples.env_with Samples.wrapped_checkpoint) true
                 "rice, beans" Samples.targets
                 (Some Samples.model, Some Samples.tokenizer, Some cpu))) /\
    In (CallGenerate ids 300 (8 # 10) 50)
       (trace (on_generate (Samples.env_with Samples.wrapped_checkpoint) true
                 "rice, beans" Samples.targets
                 (Some Samples.model, Some Samples.tokenizer, Some cpu))).
Proof.
  split.
  - destruct res as [[model tokenizer] device].
    destruct generate_btn; [|constructor].
    destruct (String.eqb_spec ingredients_input "") as [->|Hne].
    + repeat constructor.
    + destruct model as [m|].
      * rewrite on_generate_loaded by exact Hne.
        repeat constructor. apply guarded_generation_parameters.
      * rewrite on_generate_absent by exact Hne. repeat constructor.
  - do 2 eexists. split; simpl; eauto 12.
Qed.

(** ** Generation *)

Section GenerationFacts.
Import Generation.

Variable Rng : Type.
Variable sample_next : Q -> Z -> list Z -> Rng -> Z * Rng.
Variable eos : Z.

Lemma generate_loop_enough (rounds : nat) :
  forall (max_length : Z) temperature top_k (seq : list Z) (g : Rng),
    1 <= rounds ->
    Z.to_nat (max_length - Z.of_nat (List.length seq)) <= rounds ->
    exists appended,
      generate_loop Rng sample_next eos rounds max_length temperature top_k
        seq g = Some (seq ++ appended)%list /\
      1 <= List.length appended /\
      List.length appended
      <= Nat.max 1 (Z.to_nat (max_length - Z.of_nat (List.length seq))) /\
      stopped eos max_length (seq ++ appended)%list.
Proof.
  induction rounds as [|n IH]; intros max_length temperature top_k seq g H1 Hn;
    [lia|].
  cbn [generate_loop].
  destruct (sample_next temperature top_k seq g) as [tok g'].
  destruct ((tok =? eos)%Z
            || (max_length <=? Z.of_nat (List.length (seq ++ [tok])%list))%Z)
    eqn:Estop.
  - exists [tok]. split; [reflexivity|]. split; [simpl; lia|].
    split; [cbn [List.length]; lia|].
    apply orb_true_iff in Estop. destruct Estop as [E|E].
    + left. rewrite last_last. now apply Z.eqb_eq.
    + right. now apply Z.leb_le.
  - apply orb_false_iff in Estop. destruct Estop as [_ E].
    apply Z.leb_gt in E. rewrite length_app in E. simpl in E.
    destruct (IH max_length temperature top_k (seq ++ [tok])%list g')
      as [app [Hrun [Hlo [Hhi Hstop]]]].
    + lia.
    + rewrite length_app. simpl. lia.
    + exists (tok :: app).
      rewrite <- app_assoc in Hrun, Hstop. simpl in Hrun, Hstop.
      split; [exact Hrun|]. split; [simpl; lia|]. split; [|exact Hstop].
      rewrite length_app in Hhi. cbn [List.length] in *. lia.
Qed.

(** Rounds beyond the ones used change nothing. *)
Lemma generate_loop_more (rounds extra : nat) :
  forall max_length temperature top_k (seq : list Z) (g : Rng) out,
    generate_loop Rng sample_next eos rounds max_length temperature top_k
      seq g = Some out ->
    generate_loop Rng sample_next eos (rounds + extra) max_length temperature
      top_k seq g = Some out.
Proof.
  induction rounds as [|n IH]; intros max_length temperature top_k seq g out H;
    [discriminate H|].
  cbn [generate_loop Nat.add] in *.
  destruct (sample_next temperature top_k seq g) as [tok g'].
  destruct ((tok =? eos)%Z || _); [exact H | now apply IH].
Qed.

(** C7: for max_length at least 1, generation returns: it stops within
    max_length rounds, because the end token was drawn or the sequence
    reached max_length; the result is the input followed by at least one and
    at most max_length new tokens; and more rounds give the same result. *)
Theorem generate_terminates_within_bound
    (input_ids : list Z) (max_length : Z) (temperature : Q) (top_k : Z)
    (g : Rng) :
  (1 <= max_length)%Z ->
  exists appended,
    generate Rng sample_next eos input_ids max_length temperature top_k g
    = Some (input_ids ++ appended)%list /\
    (1 <= Z.of_nat (List.length appended) <= max_length)%Z /\
    stopped eos max_length (input_ids ++ appended)%list /\
    forall extra,
      generate_loop Rng sample_next eos (Z.to_nat max_length + extra)
        max_length temperature top_k input_ids g
      = Some (input_ids ++ appended)%list.
Proof.
  intros Hmax. unfold generate.
  replace (Nat.max 1 (Z.to_nat max_length)) with (Z.to_nat max_length) by lia.
  destruct (generate_loop_enough (Z.to_nat max_length) max_length temperature
              top_k input_ids g) as [app [Hrun [Hlo [Hhi Hstop]]]]; try lia.
  exists app. split; [exact Hrun|]. split; [lia|]. split; [exact Hstop|].
  intros extra. now apply generate_loop_more.
Qed.

End GenerationFacts.

(** With max_length 4, an input of two tokens and a sampler that never
    draws the end token. *)
Lemma generate_terminates_within_bound_witness :
  exists appended,
    Generation.generate nat Generation.never_eos 3%Z [1%Z; 2%Z] 4 (8 # 10) 50 0
    = Some ([1%Z; 2%Z] ++ appended)%list /\
    (1 <= Z.of_nat (List.length appended) <= 4)%Z /\
    Generation.stopped 3%Z 4 ([1%Z; 2%Z] ++ appended)%list /\
    forall extra,
      Generation.generate_loop nat Generation.never_eos 3%Z
        (Z.to_nat 4 + extra) 4 (8 # 10) 50 [1%Z; 2%Z] 0
      = Some ([1%Z; 2%Z] ++ appended)%list.
Proof.
  apply (generate_terminates_within_bound nat Generation.never_eos 3%Z
           [1%Z; 2%Z] 4 (8 # 10) 50 0).
  lia.
Defined.

(** * Further properties of the code *)

(** ** Characters *)

Ltac by_cases_on_char c :=
  destruct c as [[] [] [] [] [] [] [] []]; try reflexivity; try discriminate.

Lemma lower_not_space (c : ascii) : is_lower c = true -> is_space c = false.
Proof. by_cases_on_char c. Qed.

Lemma upper_of_lower (c : ascii) :
  is_lower c = true ->
  is_lower (upper c) = false /\ is_space (upper c) = false /\
  is_terminal (upper c) = false /\ lower (upper c) = c.
Proof. by_cases_on_char c; intros _; repeat split. Qed.

Lemma terminal_plain (c : ascii) :
  is_terminal c = true ->
  is_space c = false /\ lower c = c /\ upper c = c /\ is_lower c = false.
Proof. by_cases_on_char c; intros _; repeat split. Qed.

Lemma lower_space (c : ascii) : is_space (lower c) = is_space c.
Proof. by_cases_on_char c. Qed.

Lemma upper_space (c : ascii) : is_space (upper c) = is_space c.
Proof. by_cases_on_char c. Qed.

Lemma lower_upper (c : ascii) : lower (upper c) = lower c.
Proof. by_cases_on_char c. Qed.

Lemma lower_lower (c : ascii) : lower (lower c) = lower c.
Proof. by_cases_on_char c. Qed.

Lemma upper_upper (c : ascii) : upper (upper c) = upper c.
Proof. by_cases_on_char c. Qed.

Lemma lower_not_upper (c : ascii) : is_upper (lower c) = false.
Proof. by_cases_on_char c. Qed.

Lemma lower_fixed (c : ascii) : is_upper c = false -> lower c = c.
Proof. unfold lower. now intros ->. Qed.

(** ** The scan of [re.sub], one round at a time *)

Lemma re_sub_cons (c : ascii) (r : string) :
  re_sub (String c r) =
  match match_here (String c r) with
  | Some (g1, g2, rest) => repl g1 g2 (re_sub rest)
  | None => String c (re_sub r)
  end.
Proof.
  unfold re_sub at 1. cbn [String.length re_sub_from].
  destruct (match_here (String c r)) as [[[g1 g2] rest]|] eqn:Em.
  - apply match_here_length in Em. simpl in Em.
    rewrite re_sub_from_enough by lia. reflexivity.
  - rewrite re_sub_from_enough by lia. reflexivity.
Qed.

Lemma match_here_some (c : ascii) (r : string) g1 g2 rest :
  match_here (String c r) = Some (g1, g2, rest) ->
  g1 = c /\ is_terminal c = true /\ lstrip r = String g2 rest /\
  is_lower g2 = true.
Proof.
  simpl. destruct (is_terminal c); [|discriminate].
  destruct (lstrip r) as [|l t]; [discriminate|].
  destruct (is_lower l) eqn:El; [|discriminate].
  intros H; injection H as <- <- <-. auto.
Qed.

Lemma string_length_ind (P : string -> Prop) :
  (forall s, (forall t, String.length t < String.length s -> P t) -> P s) ->
  forall s, P s.
Proof.
  intros H s. remember (String.length s) as n eqn:En.
  revert s En. induction n as [n IH] using lt_wf_ind.
  intros s ->. apply H. intros t Ht. exact (IH _ Ht t eq_refl).
Qed.

Lemma re_sub_first (c : ascii) (r : string) :
  first_char (re_sub (String c r)) = Some c.
Proof. rewrite re_sub_spec. apply spec_sentences_first. Qed.

Lemma lstrip_blanks_app (r y : string) : lstrip (blanks r ++ y) = lstrip y.
Proof.
  induction r as [|c r IH]; simpl; [reflexivity|].
  destruct (is_space c) eqn:E; simpl; [now rewrite E | reflexivity].
Qed.

Lemma lstrip_id (y : string) :
  (forall c, first_char y = Some c -> is_space c = false) -> lstrip y = y.
Proof.
  destruct y as [|c r]; simpl; [reflexivity|].
  intros H. now rewrite (H c eq_refl).
Qed.

(** The scan copies leading blanks, so it commutes with [lstrip]. *)
Lemma lstrip_re_sub (r : string) : lstrip (re_sub r) = re_sub (lstrip r).
Proof.
  rewrite (re_sub_spec r), spec_sentences_blanks, <- re_sub_spec.
  rewrite lstrip_blanks_app. apply lstrip_id.
  destruct (lstrip r) as [|x t] eqn:E; [discriminate|].
  rewrite re_sub_first. intros c H. injection H as <-.
  apply (lstrip_first r). now rewrite E.
Qed.

(** A mark that starts no match before the scan starts none after it. *)
Lemma match_here_after_scan (c : ascii) (r : string) :
  match_here (String c r) = None -> match_here (String c (re_sub r)) = None.
Proof.
  simpl. destruct (is_terminal c); [|reflexivity].
  rewrite lstrip_re_sub.
  destruct (lstrip r) as [|x t]; [reflexivity|].
  pose proof (re_sub_first x t) as Hf.
  destruct (re_sub (String x t)) as [|y u]; [reflexivity|].
  injection Hf as ->.
  destruct (is_lower x); [discriminate | reflexivity].
Qed.

Lemma re_search_re_sub (s : string) : re_search (re_sub s) = false.
Proof.
  induction s as [s IH] using string_length_ind.
  destruct s as [|c r]; [reflexivity|].
  rewrite re_sub_cons.
  destruct (match_here (String c r)) as [[[g1 g2] rest]|] eqn:Em.
  - pose proof (match_here_length _ _ _ _ Em) as Hlen.
    apply match_here_some in Em. destruct Em as (-> & Ht & _ & Hl).
    destruct (upper_of_lower g2 Hl) as (U1 & U2 & U3 & _).
    unfold repl.
    change (re_search (String c (String " " (String (upper g2) (re_sub rest)))))
      with (match match_here
                    (String c (String " " (String (upper g2) (re_sub rest))))
            with
            | Some _ => true
            | None =>
                match match_here (String (upper g2) (re_sub rest)) with
                | Some _ => true
                | None => re_search (re_sub rest)
                end
            end).
    assert (M1 : match_here
                   (String c (String " " (String (upper g2) (re_sub rest))))
                 = None).
    { simpl. rewrite Ht, U2, U1. reflexivity. }
    assert (M2 : match_here (String (upper g2) (re_sub rest)) = None).
    { simpl. now rewrite U3. }
    rewrite M1, M2. apply IH. simpl in *. lia.
  - cbn [re_search]. rewrite (match_here_after_scan c r Em).
    apply IH. simpl. lia.
Qed.

(** X1: after the clean-up the pattern matches nowhere: no terminal mark is
    followed, through optional blanks, by a lower-case letter. *)
Theorem clean_leaves_no_match (text : string) :
  re_search (clean text) = false.
Proof. unfold clean. apply re_search_re_sub. Qed.

Lemma letters_cons (c : ascii) (s : string) :
  letters (String c s)
  = if is_space c then letters s else String (lower c) (letters s).
Proof. unfold letters. simpl. rewrite lower_space. now destruct (is_space c). Qed.

Lemma letters_blanks_app (r y : string) : letters (blanks r ++ y) = letters y.
Proof.
  induction r as [|c r IH]; simpl; [reflexivity|].
  destruct (is_space c) eqn:E; simpl; [|reflexivity].
  now rewrite letters_cons, E.
Qed.

Lemma letters_map_lower (s : string) : letters (map_str lower s) = letters s.
Proof.
  induction s as [|c r IH]; [reflexivity|]. cbn [map_str].
  now rewrite !letters_cons, lower_space, lower_lower, IH.
Qed.

Lemma letters_capitalize (s : string) : letters (capitalize s) = letters s.
Proof.
  destruct s as [|c r]; [reflexivity|]. unfold capitalize.
  now rewrite !letters_cons, upper_space, lower_upper, letters_map_lower.
Qed.

Lemma letters_re_sub (s : string) : letters (re_sub s) = letters s.
Proof.
  induction s as [s IH] using string_length_ind.
  destruct s as [|c r]; [reflexivity|].
  rewrite re_sub_cons.
  destruct (match_here (String c r)) as [[[g1 g2] rest]|] eqn:Em.
  - pose proof (match_here_length _ _ _ _ Em) as Hlen.
    apply match_here_some in Em. destruct Em as (-> & Ht & Hr & Hl).
    destruct (upper_of_lower g2 Hl) as (_ & U2 & _ & U4).
    destruct (terminal_plain c Ht) as (T1 & _).
    unfold repl. rewrite !letters_cons, T1, U2. simpl.
    rewrite (blanks_lstrip r), letters_blanks_app, Hr.
    rewrite letters_cons, (lower_not_space g2 Hl), lower_upper.
    rewrite IH by (simpl in *; lia). reflexivity.
  - rewrite !letters_cons, IH by (simpl; lia). reflexivity.
Qed.

(** X2: the clean-up changes letter case and blanks, nothing else: with
    case and blanks forgotten, the cleaned text is the text. *)
Theorem clean_keeps_letters (text : string) :
  letters (clean text) = letters text.
Proof. unfold clean. now rewrite letters_re_sub, letters_capitalize. Qed.

Lemma lowered_map_lower (s : string) : lowered (map_str lower s) = true.
Proof.
  induction s as [|c r IH]; [reflexivity|].
  unfold lowered in *. simpl. now rewrite lower_not_upper, IH.
Qed.

Lemma lowered_cons (c : ascii) (s : string) :
  lowered (String c s) = true -> is_upper c = false /\ lowered s = true.
Proof.
  unfold lowered. simpl. intros H. apply andb_true_iff in H.
  destruct H as [H1 H2]. split; [now destruct (is_upper c) | exact H2].
Qed.

Lemma lowered_lstrip (s : string) :
  lowered s = true -> lowered (lstrip s) = true.
Proof.
  induction s as [|c r IH]; [reflexivity|]. intros H. simpl.
  destruct (is_space c); [|exact H].
  apply IH. now apply lowered_cons in H.
Qed.

Lemma lstrip_map_lower (s : string) :
  lstrip (map_str lower s) = map_str lower (lstrip s).
Proof.
  induction s as [|c r IH]; [reflexivity|]. simpl.
  rewrite lower_space. now destruct (is_space c).
Qed.

(** A mark that starts no match in lower-cased text starts none in the
    lower-cased scan of it. *)
Lemma match_here_after_lowering (c : ascii) (r : string) :
  lowered r = true ->
  match_here (String c r) = None ->
  match_here (String c (map_str lower (re_sub r))) = None.
Proof.
  intros Hlow. simpl. destruct (is_terminal c); [|reflexivity].
  rewrite lstrip_map_lower, lstrip_re_sub.
  apply lowered_lstrip in Hlow.
  destruct (lstrip r) as [|x t]; [reflexivity|].
  apply lowered_cons in Hlow. destruct Hlow as [Hx _].
  pose proof (re_sub_first x t) as Hf.
  destruct (re_sub (String x t)) as [|y u]; [discriminate|].
  injection Hf as ->. simpl. rewrite (lower_fixed x Hx).
  destruct (is_lower x); [discriminate | reflexivity].
Qed.

(** One round of the second pass, for a text whose tail is lower-cased and
    whose first character [capitalize] leaves alone. *)
Lemma second_pass_step (c : ascii) (w : string) :
  (forall t, String.length t < String.length (String c w) ->
             lowered t = true -> re_sub (map_str lower (re_sub t)) = re_sub t) ->
  lowered w = true ->
  forall out_tail,
    re_sub (String c w) = String c out_tail ->
    re_sub (String c (map_str lower out_tail)) = String c out_tail.
Proof.
  intros IH Hlow out_tail Hout.
  rewrite re_sub_cons in Hout.
  destruct (match_here (String c w)) as [[[g1 g2] rest]|] eqn:Em.
  - pose proof (match_here_length _ _ _ _ Em) as Hlen.
    apply match_here_some in Em. destruct Em as (-> & Ht & Hr & Hl).
    destruct (upper_of_lower g2 Hl) as (_ & _ & _ & U4).
    unfold repl in Hout. injection Hout as <-.
    cbn [map_str]. rewrite U4. rewrite re_sub_cons.
    assert (M : match_here
                  (String c (String (lower " ")
                     (String g2 (map_str lower (re_sub rest)))))
                = Some (c, g2, map_str lower (re_sub rest))).
    { simpl. rewrite Ht. change (is_space (lower " ")) with true. simpl.
      rewrite (lower_not_space g2 Hl), Hl. reflexivity. }
    rewrite M. unfold repl. rewrite IH; [reflexivity | simpl in *; lia |].
    apply lowered_lstrip in Hlow. rewrite Hr in Hlow.
    now apply lowered_cons in Hlow.
  - injection Hout as <-. rewrite re_sub_cons.
    rewrite (match_here_after_lowering c w Hlow Em).
    rewrite IH; [reflexivity | simpl; lia | exact Hlow].
Qed.

Lemma second_pass_lowered (t : string) :
  lowered t = true -> re_sub (map_str lower (re_sub t)) = re_sub t.
Proof.
  induction t as [t IH] using string_length_ind. intros Hlow.
  destruct t as [|c w]; [reflexivity|].
  apply lowered_cons in Hlow. destruct Hlow as [Hc Hw].
  pose proof (re_sub_first c w) as Hf.
  destruct (re_sub (String c w)) as [|y out_tail] eqn:Eo; [discriminate|].
  injection Hf as ->. cbn [map_str]. rewrite (lower_fixed c Hc).
  apply (second_pass_step c w); [| exact Hw | exact Eo].
  intros t Hlen Hl. now apply IH.
Qed.

(** X3: cleaning a cleaned text changes nothing. *)
Theorem clean_idempotent (text : string) : clean (clean text) = clean text.
Proof.
  unfold clean. destruct text as [|c r]; [reflexivity|].
  cbn [capitalize].
  pose proof (re_sub_first (upper c) (map_str lower r)) as Hf.
  destruct (re_sub (String (upper c) (map_str lower r)))
    as [|y out_tail] eqn:Eo; [discriminate|].
  injection Hf as ->. cbn [capitalize]. rewrite upper_upper.
  apply (second_pass_step (upper c) (map_str lower r)); [| | exact Eo].
  - intros t _ Hl. now apply second_pass_lowered.
  - apply lowered_map_lower.
Qed.

(** ** More on the ingredient list *)

Section MoreParseFacts.
Import UText.

Lemma u_lstrip_id (y : ustr) :
  (forall c, first_char y = Some c -> is_space c = false) -> lstrip y = y.
Proof.
  destruct y as [|c r]; simpl; [reflexivity|].
  intros H. now rewrite (H c eq_refl).
Qed.

Lemma rstrip_idempotent (s : ustr) : rstrip (rstrip s) = rstrip s.
Proof.
  induction s as [|c r IH]; [reflexivity|]. cbn [rstrip].
  destruct (rstrip r) as [|y t] eqn:E.
  - destruct (is_space c) eqn:Ec; [reflexivity|]. simpl. now rewrite Ec.
  - cbn [rstrip]. cbn [rstrip] in IH. now rewrite IH.
Qed.

Lemma strip_idempotent (p : ustr) : strip (strip p) = strip p.
Proof.
  unfold strip. rewrite (u_lstrip_id (rstrip (lstrip p))).
  - apply rstrip_idempotent.
  - intros c H. apply u_rstrip_first in H. now apply u_lstrip_first in H.
Qed.

Lemma count_char_app (a : N) (s1 s2 : ustr) :
  count_char a (s1 ++ s2)%list = count_char a s1 + count_char a s2.
Proof.
  induction s1 as [|c r IH]; simpl; [reflexivity|]. rewrite IH. lia.
Qed.

Lemma strip_no_sep (a : N) (p : ustr) :
  count_char a p = 0 -> count_char a (strip p) = 0.
Proof.
  destruct (strip_stripped p) as (l & r & Hp & _).
  intros H. rewrite Hp, !count_char_app in H. lia.
Qed.

Lemma split_whole (sep : N) (e : ustr) :
  count_char sep e = 0 -> split sep e = [e].
Proof.
  induction e as [|c r IH]; simpl; [reflexivity|].
  destruct (N.eqb c sep); [discriminate|].
  intros H. now rewrite IH.
Qed.

Lemma split_app (sep : N) (e rest : ustr) :
  count_char sep e = 0 ->
  split sep (e ++ sep :: rest)%list = e :: split sep rest.
Proof.
  induction e as [|c r IH]; simpl.
  - now rewrite N.eqb_refl.
  - destruct (N.eqb c sep); [discriminate|].
    intros H. now rewrite IH.
Qed.

Lemma map_strip_leading_blank (y : ustr) :
  map strip (split comma (blank :: y)) = map strip (split comma y).
Proof.
  cbn [split]. change (N.eqb blank comma) with false. cbv iota.
  pose proof (split_nonempty comma y) as Hn.
  destruct (split comma y) as [|h t]; [contradiction|]. reflexivity.
Qed.

(** Names without commas or surrounding blanks, joined by ", ", parse back
    to themselves. *)
Lemma parse_joined (names : list ustr) :
  names <> [] ->
  Forall (fun e => count_char comma e = 0 /\ strip e = e) names ->
  Ingredients.parse (join [comma; blank] names) = names.
Proof.
  unfold Ingredients.parse.
  induction names as [|e rest IH]; [contradiction|]. intros _ Hall.
  inversion Hall as [|? ? [Hc Hs] Hrest]; subst.
  destruct rest as [|e' rest'].
  - cbn [join]. rewrite (split_whole comma e Hc). simpl. now rewrite Hs.
  - change (join [comma; blank] (e :: e' :: rest'))
      with (e ++ comma :: blank :: join [comma; blank] (e' :: rest'))%list.
    rewrite (split_app comma e _ Hc). cbn [map].
    rewrite map_strip_leading_blank, Hs. f_equal.
    apply IH; [discriminate | exact Hrest].
Qed.

Lemma parse_nonempty (ingredients_input : ustr) :
  Ingredients.parse ingredients_input <> [].
Proof.
  unfold Ingredients.parse.
  pose proof (split_nonempty comma ingredients_input) as Hn.
  destruct (split comma ingredients_input); [contradiction | discriminate].
Qed.

Lemma parse_clean (ingredients_input : ustr) :
  Forall (fun e => count_char comma e = 0 /\ strip e = e)
    (Ingredients.parse ingredients_input).
Proof.
  unfold Ingredients.parse. apply Forall_map.
  pose proof (split_no_sep comma ingredients_input) as H.
  induction H as [|p ps Hp _ IH]; constructor; [|exact IH].
  split; [now apply strip_no_sep | apply strip_idempotent].
Qed.

(** X4: for every input text, the parsed ingredient list is never empty,
    and every element is free of commas and of leading and trailing blanks
    (stripping it again changes nothing). *)
Theorem ingredients_are_clean (ingredients_input : ustr) :
  Ingredients.parse ingredients_input <> [] /\
  Forall (fun e => count_char comma e = 0 /\ strip e = e)
    (Ingredients.parse ingredients_input).
Proof. split; [apply parse_nonempty | apply parse_clean]. Qed.

(** X5: for every input text, the echo of the request, the names joined by
    ", ", parses back to the same ingredient list. *)
Theorem ingredients_echo_parses_back (ingredients_input : ustr) :
  Ingredients.parse (join [comma; blank] (Ingredients.parse ingredients_input))
  = Ingredients.parse ingredients_input.
Proof. apply parse_joined; [apply parse_nonempty | apply parse_clean]. Qed.








End MoreParseFacts.

(** ** More on the generate trigger *)








(** ** More on the loader *)

Ltac load_shows :=
  split; [intros H; first [reflexivity | discriminate H]|];
  split; [intros m' t' d' H; first [reflexivity | discriminate H]|];
  eexists; reflexivity.

(** X8: the loader first shows the device it chose, and shows an error
    message exactly when it fails: one message when it returns the triple
    with nothing in it, none when it returns the loaded resources. *)
Theorem load_shows_one_error_iff_failed (env : Env) :
  (outcome (load_model_and_tokenizer env) = Ok all_absent ->
   List.length (filter is_error (trace (load_model_and_tokenizer env))) = 1) /\
  (forall m t d,
      outcome (load_model_and_tokenizer env) = Ok (Some m, Some t, Some d) ->
      filter is_error (trace (load_model_and_tokenizer env)) = []) /\
  exists rest,
    trace (load_model_and_tokenizer env)
    = StWrite ("Using device: "
               ++ device_str (select_device (mps_is_available env)
                                (cuda_is_available env)))
        :: rest.
Proof.
  unfold load_model_and_tokenizer, load_body, outcome, trace. simpl.
  destruct (os_path_exists env tokenizer_path); simpl; [|load_shows].
  load_step; [|load_shows].
  destruct (os_path_exists env model_path); simpl; [|load_shows].
  do 7 (load_step; [|load_shows]).
  load_shows.
Qed.

(** X9: which message a missing artifact gives.  Without the tokenizer file
    the run shows "Tokenizer not found at models/recipe_tokenizer.pkl" and
    nothing is loaded; a tokenizer file that fails to load is reported as
    "Error loading model: " followed by str(e), before the model file is
    looked for; with the tokenizer loaded and no model file the run shows
    "Model not found at models/nutrigen_transformer_final.pt". *)
Theorem load_missing_artifacts (env : Env) :
  let device_line :=
    StWrite ("Using device: "
             ++ device_str (select_device (mps_is_available env)
                              (cuda_is_available env))) in
  (os_path_exists env tokenizer_path = false ->
   load_model_and_tokenizer env
   = ([device_line;
       StError "Tokenizer not found at models/recipe_tokenizer.pkl"],
      Ok all_absent)) /\
  (forall e,
      os_path_exists env tokenizer_path = true ->
      RecipeTokenizer_load env tokenizer_path = Raise e ->
      load_model_and_tokenizer env
      = ([device_line; StError ("Error loading model: " ++ exn_str e)],
         Ok all_absent)) /\
  (forall tok,
      os_path_exists env tokenizer_path = true ->
      RecipeTokenizer_load env tokenizer_path = Ok tok ->
      os_path_exists env model_path = false ->
      load_model_and_tokenizer env
      = ([device_line;
          StError "Model not found at models/nutrigen_transformer_final.pt"],
         Ok all_absent)).
Proof.
  unfold load_model_and_tokenizer, load_body. simpl.
  split; [|split].
  - intros ->. reflexivity.
  - intros e -> ->. reflexivity.
  - intros tok -> -> ->. reflexivity.
Qed.

Lemma load_makes_no_core_call (env : Env) :
  existsb is_core_call (trace (load_model_and_tokenizer env)) = false.
Proof.
  unfold load_model_and_tokenizer, load_body, trace. simpl.
  destruct (os_path_exists env tokenizer_path); simpl; [|reflexivity].
  load_step; [|reflexivity].
  destruct (os_path_exists env model_path); simpl; [|reflexivity].
  do 7 (load_step; [|reflexivity]).
  reflexivity.
Qed.

(** ** More on checkpoint resolution *)

Lemma dict_lookup_set_same (d : dict) (k : string) (v : pyval) :
  dict_lookup (dict_set d k v) k = Some v.
Proof.
  induction d as [|[k1 v1] r IH]; simpl.
  - now rewrite String.eqb_refl.
  - destruct (String.eqb k1 k) eqn:E; simpl; now rewrite E.
Qed.

Lemma dict_lookup_set_other (d : dict) (k k' : string) (v : pyval) :
  k' <> k -> dict_lookup (dict_set d k v) k' = dict_lookup d k'.
Proof.
  intros Hne. induction d as [|[k1 v1] r IH]; simpl.
  - destruct (String.eqb_spec k k'); [now subst | reflexivity].
  - destruct (String.eqb_spec k1 k) as [->|Hk]; simpl.
    + destruct (String.eqb_spec k k'); [now subst | reflexivity].
    + now rewrite IH.
Qed.

(** X10: resolution of the configuration reads three top-level entries
    only: setting any other top-level key of the checkpoint (an "n_heads"
    or "dropout" beside [config], say) changes nothing. *)
Theorem resolve_config_reads_three_keys
    (checkpoint : dict) (k : string) (v : pyval) (tokenizer_vocab_size : Z) :
  k <> "vocab_size" -> k <> "d_model" -> k <> "config" ->
  resolve_config (VDict (dict_set checkpoint k v)) tokenizer_vocab_size
  = resolve_config (VDict checkpoint) tokenizer_vocab_size.
Proof.
  intros H1 H2 H3. unfold resolve_config, py_get.
  rewrite !dict_lookup_set_other by congruence. reflexivity.
Qed.

Lemma resolve_config_reads_three_keys_witness :
  resolve_config
    (VDict (dict_set [("d_model", VInt 128)] "n_heads" (VInt 2))) 8000
  = resolve_config (VDict [("d_model", VInt 128)]) 8000.
Proof.
  apply (resolve_config_reads_three_keys
           [("d_model", VInt 128)] "n_heads" (VInt 2) 8000); discriminate.
Defined.

Lemma dict_set_nodup (d : dict) (k : string) (v : pyval) :
  NoDup (dict_keys d) -> NoDup (dict_keys (dict_set d k v)).
Proof.
  induction d as [|[k1 v1] r IH]; simpl; intros H.
  - repeat constructor. intros [].
  - inversion H as [|? ? Hk Hr]; subst.
    destruct (String.eqb_spec k1 k) as [->|Hne]; simpl;
      [now constructor|].
    constructor; [|now apply IH].
    change (~ In k1 (dict_keys (dict_set r k v))).
    rewrite dict_set_keys. intros [E|Hin]; [congruence | exact (Hk Hin)].
Qed.

Lemma dict_set_length (d : dict) (k : string) (v : pyval) :
  List.length d <= List.length (dict_set d k v) <= S (List.length d).
Proof.
  induction d as [|[k1 v1] r IH]; simpl; [lia|].
  destruct (String.eqb k1 k); simpl; lia.
Qed.

Lemma rekey_fold_invariant (f : string -> string) (d acc : dict) :
  NoDup (dict_keys acc) ->
  let out := fold_left (fun a kv => dict_set a (f (fst kv)) (snd kv)) d acc in
  NoDup (dict_keys out) /\
  List.length acc <= List.length out <= List.length acc + List.length d.
Proof.
  revert acc. induction d as [|[k v] r IH]; intros acc Hnd; simpl.
  - split; [exact Hnd | lia].
  - destruct (IH (dict_set acc (f k) v) (dict_set_nodup acc (f k) v Hnd))
      as [H1 H2].
    pose proof (dict_set_length acc (f k) v) as Hl.
    cbv zeta in H2. split; [exact H1 | lia].
Qed.

(** X11: the resolved parameter mapping is again a proper mapping: its keys
    are pairwise distinct, it is not empty, and it has at most as many
    entries as the extracted one (fewer when two keys become equal once
    their first seven characters are cut). *)
Theorem resolve_params_is_a_mapping (checkpoint : pyval) (d d' : dict) :
  py_get checkpoint "model_state_dict" checkpoint = Ok (VDict d) ->
  NoDup (dict_keys d) ->
  resolve_params checkpoint = Ok d' ->
  NoDup (dict_keys d') /\ 1 <= List.length d' <= List.length d.
Proof.
  intros Hget Hnd Hres.
  destruct d as [|[k0 v0] r].
  - unfold resolve_params in Hres. rewrite Hget in Hres. discriminate Hres.
  - rewrite (resolve_params_dict _ _ _ _ Hget) in Hres.
    destruct (startswith k0 wrapper_prefix).
    + injection Hres as <-. unfold dict_rekey. cbn [fold_left dict_set fst snd].
      destruct (rekey_fold_invariant strip_key r [(strip_key k0, v0)])
        as [H1 H2]; [repeat constructor; intros []|].
      cbv zeta in H2. simpl in H2. split; [exact H1 | simpl; lia].
    + injection Hres as <-. split; [exact Hnd | simpl; lia].
Qed.

(** Two keys that fall together: the mapping loses an entry. *)
Lemma resolve_params_is_a_mapping_witness :
  NoDup (dict_keys [("a", VTensor 2)]) /\
  1 <= List.length [("a", VTensor 2)]
  <= List.length [("module.a", VTensor 1); ("params.a", VTensor 2)].
Proof.
  apply (resolve_params_is_a_mapping
           (VDict [("module.a", VTensor 1); ("params.a", VTensor 2)])
           [("module.a", VTensor 1); ("params.a", VTensor 2)]
           [("a", VTensor 2)]).
  - reflexivity.
  - repeat constructor; simpl; intuition discriminate.
  - reflexivity.
Defined.

Lemma append_inj_l (p a b : string) : p ++ a = p ++ b -> a = b.
Proof.
  induction p as [|c p IH]; simpl; [auto|].
  intros H. injection H as H. now apply IH.
Qed.

Lemma lookup_unwrapped (d : dict) (k : string) :
  Forall (fun k => startswith k wrapper_prefix = true) (dict_keys d) ->
  dict_lookup (map (rekey_entry strip_key) d) k
  = dict_lookup d (wrapper_prefix ++ k).
Proof.
  induction d as [|[k1 v1] r IH]; intros Hall; [reflexivity|].
  change (dict_lookup (map (rekey_entry strip_key) ((k1, v1) :: r)) k)
    with (if String.eqb (strip_key k1) k then Some v1
          else dict_lookup (map (rekey_entry strip_key) r) k).
  change (dict_lookup ((k1, v1) :: r) (wrapper_prefix ++ k))
    with (if String.eqb k1 (wrapper_prefix ++ k) then Some v1
          else dict_lookup r (wrapper_prefix ++ k)).
  simpl in Hall. inversion Hall as [|? ? Hp Hr]; subst.
  rewrite (IH Hr).
  destruct (String.eqb_spec (strip_key k1) k) as [E|E];
    destruct (String.eqb_spec k1 (wrapper_prefix ++ k)) as [E'|E'];
    try reflexivity; exfalso.
  - apply E'. rewrite (wrapped_key k1 Hp). now rewrite E.
  - apply E. rewrite (wrapped_key k1 Hp) in E'. now apply append_inj_l in E'.
Qed.

(** X12: unwrapping keeps every parameter with its tensor: when all keys of
    the extracted mapping start with "module.", looking a name up in the
    resolved mapping gives what the extracted mapping holds under
    "module." followed by that name. *)
Theorem resolve_params_lookup_unwrapped (checkpoint : pyval) (d : dict) :
  py_get checkpoint "model_state_dict" checkpoint = Ok (VDict d) ->
  d <> [] ->
  NoDup (dict_keys d) ->
  Forall (fun k => startswith k wrapper_prefix = true) (dict_keys d) ->
  exists d',
    resolve_params checkpoint = Ok d' /\
    forall k, dict_lookup d' k = dict_lookup d (wrapper_prefix ++ k).
Proof.
  intros Hget Hne Hnd Hall.
  destruct d as [|[k0 v0] r]; [contradiction|].
  rewrite (resolve_params_dict _ _ _ _ Hget).
  assert (Hp : startswith k0 wrapper_prefix = true) by (now inversion Hall).
  rewrite Hp. eexists. split; [reflexivity|]. intros k.
  unfold dict_rekey. rewrite rekey_fold_distinct.
  - change ([] ++ map (rekey_entry strip_key) ((k0, v0) :: r))%list
      with (map (rekey_entry strip_key) ((k0, v0) :: r)).
    now apply lookup_unwrapped.
  - now apply strip_keys_distinct.
  - intros k' _ [].
Qed.

Lemma resolve_params_lookup_unwrapped_witness :
  exists d',
    resolve_params Samples.wrapped_checkpoint = Ok d' /\
    forall k, dict_lookup d' k
              = dict_lookup [("module.embed.weight", VTensor 1)]
                  (wrapper_prefix ++ k).
Proof.
  apply (resolve_params_lookup_unwrapped Samples.wrapped_checkpoint
           [("module.embed.weight", VTensor 1)]).
  - reflexivity.
  - discriminate.
  - repeat constructor. intros [].
  - repeat constructor.
Defined.

(** ** The whole run *)

Lemma script_unfold env generate_btn input t :
  exists res,
    outcome (load_model_and_tokenizer env) = Ok res /\
    script env generate_btn input t
    = ((trace (load_model_and_tokenizer env)
        ++ trace (on_generate env generate_btn input t res))%list,
       outcome (on_generate env generate_btn input t res)).
Proof.
  destruct (load_outcome env) as [res [Ho _]]. exists res.
  split; [exact Ho|]. unfold script, bind, trace, outcome in *.
  destruct (load_model_and_tokenizer env) as [evs o]. simpl in Ho. subst o.
  destruct (on_generate env generate_btn input t res). reflexivity.
Qed.

Lemma guarded_generation_encodes env input t m tok device text :
  format_ingredients_for_input env (Ingredients.ingredients_list input)
    (nutrition_info t) = Ok text ->
  In (CallEncode text 200)
     (trace (guarded_generation env input t m (Some tok) device)).
Proof.
  intros Hf.
  unfold guarded_generation, generate_body, call_format, call_encode,
    call_generate, call_decode, try_except, bind, lift, emit, attr_of, trace.
  simpl. rewrite Hf. simpl.
  repeat match goal with
         | |- context [match ?r with Ok _ => _ | Raise _ => _ end] =>
             destruct r; simpl
         end; auto.
Qed.

(** X13: a whole run, loading then trigger.  When the loader returned the
    triple with nothing in it, no call into the core is made, and the
    trigger with a non-empty text adds exactly the load-failure message to
    what the loader showed.  When the loader returned a model, the tokenizer
    is there too: with a non-empty text, once the formatter returns a prompt
    that prompt is encoded with max_length 200. *)
Theorem script_run (env : Env) (generate_btn : bool) (input : string)
    (t : Targets) :
  (outcome (load_model_and_tokenizer env) = Ok all_absent ->
   existsb is_core_call (trace (script env generate_btn input t)) = false /\
   (input <> "" ->
    trace (script env true input t)
    = (trace (load_model_and_tokenizer env)
       ++ [StError load_failure_message])%list)) /\
  (forall m tokenizer device text,
      outcome (load_model_and_tokenizer env) = Ok (Some m, tokenizer, device) ->
      input <> "" ->
      format_ingredients_for_input env (Ingredients.ingredients_list input)
        (nutrition_info t) = Ok text ->
      In (CallEncode text 200) (trace (script env true input t))).
Proof.
  split.
  - intros Habsent. split.
    + destruct (script_unfold env generate_btn input t) as [res [Ho ->]].
      rewrite Habsent in Ho. injection Ho as <-.
      unfold trace at 1. cbn [fst]. rewrite existsb_app.
      rewrite load_makes_no_core_call. cbn [orb].
      destruct generate_btn; [|reflexivity].
      destruct (string_dec input "") as [->|Hne]; [reflexivity|].
      unfold all_absent. now rewrite on_generate_absent.
    + intros Hne.
      destruct (script_unfold env true input t) as [res [Ho ->]].
      rewrite Habsent in Ho. injection Ho as <-.
      unfold all_absent. now rewrite on_generate_absent.
  - intros m tokenizer device text Hload Hne Hf.
    destruct (script_unfold env true input t) as [res [Ho ->]].
    rewrite Hload in Ho. injection Ho as <-.
    destruct (load_outcome env)
      as [r [Ho [[-> _]|[m' [t' [d' [-> _]]]]]]];
      rewrite Hload in Ho; [discriminate Ho|].
    injection Ho as -> -> ->.
    unfold trace at 1. cbn [fst]. apply in_or_app. right.
    rewrite on_generate_loaded by exact Hne.
    unfold trace at 1. cbn [fst]. right. right.
    now apply guarded_generation_encodes.
Qed.

(** ** When resolution fails *)

(** X14: resolution of the parameters succeeds exactly when what is
    extracted (the [model_state_dict] entry, else the checkpoint itself) is
    a mapping with at least one entry; resolution of the configuration
    succeeds exactly when the checkpoint is a mapping whose [config] entry,
    if it has one, is a mapping. *)
Theorem resolution_succeeds_iff (checkpoint : pyval) (tokenizer_vocab_size : Z) :
  ((exists d', resolve_params checkpoint = Ok d') <->
   (exists k v d,
       py_get checkpoint "model_state_dict" checkpoint
       = Ok (VDict ((k, v) :: d)))) /\
  ((exists cfg, resolve_config checkpoint tokenizer_vocab_size = Ok cfg) <->
   (exists d,
       checkpoint = VDict d /\
       (dict_lookup d "config" = None \/
        exists c, dict_lookup d "config" = Some (VDict c)))).
Proof.
  split; split.
  - intros [d' H]. unfold resolve_params in H.
    destruct (py_get checkpoint "model_state_dict" checkpoint)
      as [sd|e]; [|discriminate H].
    destruct sd as [| | | | |[|[k v] d]]; try discriminate H.
    now exists k, v, d.
  - intros (k & v & d & H). rewrite (resolve_params_dict _ _ _ _ H).
    eexists. reflexivity.
  - intros [cfg H]. destruct checkpoint as [| | | | |d]; try discriminate H.
    exists d. split; [reflexivity|].
    unfold resolve_config in H. simpl in H.
    destruct (dict_lookup d "config") as [v|]; [|now left].
    destruct v; try discriminate H. right. eexists. reflexivity.
  - intros (d & -> & [Hc|[c Hc]]); unfold resolve_config; simpl; rewrite Hc;
      eexists; reflexivity.
Qed.
